(** * patent_fetcher: the extraction core of [patent_fetcher.py]

    A shallow embedding of [parse] and of the functions it calls
    ([parse_label], [parse_children], [parse_siblings], [property_value],
    [parse_tag], [parse_sections], [parse_abstract], [parse_description],
    [parse_claims], [find_claims], [parse_claim]) together with the part of
    the BeautifulSoup tree interface they use.

    Conventions.
    - A Python [str] is a [string]; the characters of the model are the code
      points below 128.  The character functions leave the other values of
      [ascii] alone and class them as neither whitespace nor alphanumeric.
    - A Python [dict] is an association list in insertion order: assigning to
      a key that is present keeps its position, a new key goes to the end.
    - [id(tag)] is a field of the element; the module-level set [hack] is
      threaded through the walker as state.
    - The children of an element are strings and elements: comments, and
      the strings of [script] and [style] elements, which [get_text] leaves
      out, are not part of the model.
    - Log output is not part of the model. *)

From Stdlib Require Import Ascii String.
From stdpp Require Import base option list gmap.

Set Warnings "-register-all".

Local Open Scope string_scope.
Local Open Scope list_scope.

(** ** Python [str] methods *)

Module PyStr.

Definition code (c : ascii) : nat := nat_of_ascii c.

(** [str.isspace] on one character: TAB..CR, FS..US and the space. *)
Definition isspace (c : ascii) : bool :=
  ((9 <=? code c)%nat && (code c <=? 13)%nat)
  || ((28 <=? code c)%nat && (code c <=? 32)%nat).

Definition isupper (c : ascii) : bool := (65 <=? code c)%nat && (code c <=? 90)%nat.
Definition islower (c : ascii) : bool := (97 <=? code c)%nat && (code c <=? 122)%nat.
Definition isdigit (c : ascii) : bool := (48 <=? code c)%nat && (code c <=? 57)%nat.

(** [str.isalnum] on one character. *)
Definition isalnum (c : ascii) : bool := isupper c || islower c || isdigit c.

Definition lower_char (c : ascii) : ascii :=
  if isupper c then ascii_of_nat (code c + 32) else c.

Definition upper_char (c : ascii) : ascii :=
  if islower c then ascii_of_nat (code c - 32) else c.

(** [str.lower] *)
Fixpoint lower (s : string) : string :=
  match s with
  | EmptyString => EmptyString
  | String c s' => String (lower_char c) (lower s')
  end.

(** [str.capitalize]: the first character in upper case, all the others in
    lower case. *)
Definition capitalize (s : string) : string :=
  match s with
  | EmptyString => EmptyString
  | String c s' => String (upper_char c) (lower s')
  end.

(** [str.lstrip], [str.rstrip] and [str.strip] without argument. *)
Fixpoint lstrip (s : string) : string :=
  match s with
  | EmptyString => EmptyString
  | String c s' => if isspace c then lstrip s' else s
  end.

Fixpoint rstrip (s : string) : string :=
  match s with
  | EmptyString => EmptyString
  | String c s' =>
      match rstrip s' with
      | EmptyString => if isspace c then EmptyString else String c EmptyString
      | r => String c r
      end
  end.

Definition strip (s : string) : string := rstrip (lstrip s).

(** [str.split] without argument: the maximal runs of characters that are not
    whitespace.  [w] is the word being read. *)
Fixpoint split_from (w : string) (s : string) : list string :=
  match s with
  | EmptyString => match w with EmptyString => [] | _ => [w] end
  | String c s' =>
      if isspace c
      then match w with
           | EmptyString => split_from EmptyString s'
           | _ => w :: split_from EmptyString s'
           end
      else split_from (String.append w (String c EmptyString)) s'
  end.

Definition split (s : string) : list string := split_from EmptyString s.

(** ["".join(parts)] *)
Definition join (parts : list string) : string :=
  fold_right String.append EmptyString parts.

(** [needle in haystack] for two strings. *)
Fixpoint contains (needle haystack : string) : bool :=
  String.prefix needle haystack ||
  match haystack with
  | EmptyString => false
  | String _ h' => contains needle h'
  end.

End PyStr.

(** ** Python [dict] with [str] keys, in insertion order *)

Module PyDict.

Section Dict.
Context {V : Type}.

(** [d[k]], [None] standing for a [KeyError]; also [d.get(k)]. *)
Fixpoint get (k : string) (d : list (string * V)) : option V :=
  match d with
  | [] => None
  | (k', v) :: d' => if String.eqb k' k then Some v else get k d'
  end.

(** [k in d] *)
Definition mem (k : string) (d : list (string * V)) : bool :=
  match get k d with Some _ => true | None => false end.

(** [d[k] = v] *)
Fixpoint set (k : string) (v : V) (d : list (string * V)) : list (string * V) :=
  match d with
  | [] => [(k, v)]
  | (k', v') :: d' =>
      if String.eqb k' k then (k', v) :: d' else (k', v') :: set k v d'
  end.

(** [dict(fields)] for an iterable of pairs. *)
Definition of_fields (fields : list (string * V)) : list (string * V) :=
  fold_left (fun d kv => set (fst kv) (snd kv) d) fields [].
End Dict.

End PyDict.

(** ** The BeautifulSoup tree *)

(** An attribute value: a string, or a list of strings for the multi-valued
    attributes such as [class]. *)
Inductive attr_value : Type :=
| AStr (s : string)
| AList (l : list string).

(** [Tag] is an element, [PageElement] a child of an element: a
    [NavigableString] or an element.  [ident] is what [id(tag)] returns. *)
Inductive Tag : Type :=
| mkTag (ident : nat) (name : string) (attrs : list (string * attr_value))
        (contents : list PageElement)
with PageElement : Type :=
| NavigableString (s : string)
| Element (t : Tag).

Definition ident (t : Tag) : nat := match t with mkTag i _ _ _ => i end.
Definition name (t : Tag) : string := match t with mkTag _ n _ _ => n end.
Definition attrs (t : Tag) : list (string * attr_value) :=
  match t with mkTag _ _ a _ => a end.
Definition contents (t : Tag) : list PageElement :=
  match t with mkTag _ _ _ c => c end.

(** A [Tag] object as the program holds it: the element with its links to the
    following siblings and to the parents (nearest first). *)
Record TagRef : Type := mkRef {
  elem : Tag;
  next_siblings : list PageElement;
  parents : list Tag
}.

Module Bs4.

(** The elements of [l], each with its following siblings, under the parents
    [ps]; a string stays a string. *)
Fixpoint refs (ps : list Tag) (l : list PageElement) : list (string + TagRef) :=
  match l with
  | [] => []
  | NavigableString s :: rest => inl s :: refs ps rest
  | Element t :: rest => inr (mkRef t rest ps) :: refs ps rest
  end.

(** [tag.children] *)
Definition children (tag : TagRef) : list (string + TagRef) :=
  refs (elem tag :: parents tag) (contents (elem tag)).

(** [tag.next_siblings], as objects *)
Definition next_sibling_refs (tag : TagRef) : list (string + TagRef) :=
  refs (parents tag) (next_siblings tag).

(** The elements below [t] in document order, [t] excluded. *)
Fixpoint descendants_of (ps : list Tag) (t : Tag) : list TagRef :=
  match t with
  | mkTag _ _ _ cs =>
      (fix below (l : list PageElement) : list TagRef :=
         match l with
         | [] => []
         | NavigableString _ :: rest => below rest
         | Element c :: rest =>
             mkRef c rest (t :: ps) :: descendants_of (t :: ps) c ++ below rest
         end) cs
  end.

Definition descendants (tag : TagRef) : list TagRef :=
  descendants_of (parents tag) (elem tag).

(** [tag.find_all(p)] and [tag.find(p)] for a predicate [p] on elements. *)
Definition find_all (p : TagRef -> bool) (tag : TagRef) : list TagRef :=
  List.filter p (descendants tag).

Definition find (p : TagRef -> bool) (tag : TagRef) : option TagRef :=
  head (find_all p tag).

(** [tag.find_parent(p)]: the nearest parent that satisfies [p]. *)
Definition find_parent (p : Tag -> bool) (tag : TagRef) : option Tag :=
  List.find p (parents tag).

(** [tag.get(key)] and [tag.has_attr(key)] *)
Definition get (key : string) (tag : Tag) : option attr_value :=
  PyDict.get key (attrs tag).

Definition has_attr (key : string) (tag : Tag) : bool :=
  PyDict.mem key (attrs tag).

(** Truth value of what [tag.get] returned: [None], the empty string and the
    empty list are false. *)
Definition truthy (v : option attr_value) : bool :=
  match v with
  | None | Some (AStr EmptyString) | Some (AList []) => false
  | Some _ => true
  end.

(** [tag.string]: the single child if it is a string, the [.string] of the
    single child if it is an element, [None] otherwise. *)
Fixpoint string (t : Tag) : option string :=
  match t with
  | mkTag _ _ _ [NavigableString s] => Some s
  | mkTag _ _ _ [Element c] => string c
  | _ => None
  end.

(** The strings below [t] in document order. *)
Fixpoint strings (t : Tag) : list String.string :=
  match t with
  | mkTag _ _ _ cs =>
      (fix below (l : list PageElement) : list String.string :=
         match l with
         | [] => []
         | NavigableString s :: rest => s :: below rest
         | Element c :: rest => strings c ++ below rest
         end) cs
  end.

(** [tag.get_text(strip=True)]: every string stripped, the empty ones dropped,
    the others joined without separator. *)
Definition get_text (t : Tag) : String.string :=
  PyStr.join
    (List.filter (fun s => negb (String.eqb s EmptyString))
                 (map PyStr.strip (strings t))).

(** [tag.find(attrs={"class": c})]: [c] is one of the classes, or the whole
    attribute. *)
Definition class_matches (c : String.string) (tag : Tag) : bool :=
  match get "class" tag with
  | Some (AStr s) => String.eqb s c
  | Some (AList l) =>
      existsb (String.eqb c) l || String.eqb (String.concat " " l) c
  | None => false
  end.

End Bs4.

(** Number of elements of a tree, and of a list of children. *)
Fixpoint tag_size (t : Tag) : nat :=
  match t with
  | mkTag _ _ _ cs => S (list_sum (map size_pe cs))
  end
with size_pe (e : PageElement) : nat :=
  match e with
  | NavigableString _ => 0
  | Element t => tag_size t
  end.

Definition size_list (l : list PageElement) : nat := list_sum (map size_pe l).

(** What bounds the walk that starts at [tag]: the element and the siblings
    after it. *)
Definition weight (tag : TagRef) : nat :=
  tag_size (elem tag) + size_list (next_siblings tag).

(** ** The output record *)

(** What a field of the output holds: [None], a string, a list or a nested
    dictionary. *)
Inductive Value : Type :=
| VNone
| VStr (s : string)
| VList (l : list Value)
| VDict (d : list (string * Value)).

(** [Node: TypeAlias = dict[str, Any]] *)
Definition Node : Type := list (string * Value).

(** [Field: TypeAlias = tuple[str, Any]] *)
Definition Field : Type := (string * Value)%type.

(** An attribute value as it is stored in the output. *)
Definition of_attr (a : attr_value) : Value :=
  match a with
  | AStr s => VStr s
  | AList l => VList (map VStr l)
  end.

(** What [tag.get(key)] returned, stored in the output. *)
Definition of_get (a : option attr_value) : Value :=
  match a with
  | Some a => of_attr a
  | None => VNone
  end.

(** ** Exceptions and the state of the walker *)

Inductive exn : Type :=
| AssertionError
| AttributeError
| KeyError.

(** How a call of the section parsers ends: with a value or with an
    exception. *)
Inductive result (A : Type) : Type :=
| Ok (a : A)
| Err (e : exn).

Arguments Ok {A} a.
Arguments Err {A} e.

Definition rbind {A B : Type} (x : result A) (k : A -> result B) : result B :=
  match x with
  | Ok a => k a
  | Err e => Err e
  end.

(** [assert isinstance(x, Tag)] for the result of a search. *)
Definition assert_found {A : Type} (x : option A) : result A :=
  match x with
  | Some a => Ok a
  | None => Err AssertionError
  end.

(** How a call of the walker ends when the nesting of its calls is bounded:
    with a value, with an exception, or out of calls. *)
Inductive outcome (A : Type) : Type :=
| Done (a : A)
| Raised (e : exn)
| Starved.

Arguments Done {A} a.
Arguments Raised {A} e.
Arguments Starved {A}.

(** A computation that reads and extends the module-level set [hack]. *)
Definition M (A : Type) : Type := gset nat -> outcome (A * gset nat).

Definition ret {A : Type} (a : A) : M A := fun hack => Done (a, hack).

Definition bind {A B : Type} (m : M A) (k : A -> M B) : M B :=
  fun hack =>
    match m hack with
    | Done (a, hack') => k a hack'
    | Raised e => Raised e
    | Starved => Starved
    end.

Definition raise {A : Type} (e : exn) : M A := fun _ => Raised e.

Definition starve {A : Type} : M A := fun _ => Starved.

(** A call that leaves [hack] alone. *)
Definition lift {A : Type} (x : result A) : M A :=
  fun hack =>
    match x with
    | Ok a => Done (a, hack)
    | Err e => Raised e
    end.

(** [id(tag) in hack] *)
Definition visited (tag : Tag) : M bool :=
  fun hack => Done (bool_decide (ident tag ∈ hack), hack).

(** [hack.add(id(tag))] *)
Definition mark (tag : Tag) : M unit :=
  fun hack => Done (tt, {[ident tag]} ∪ hack).

Declare Scope walk_scope.
Delimit Scope walk_scope with walk.
Notation "x <- m ;; k" := (bind m (fun x => k))
  (at level 100, m at next level, right associativity) : walk_scope.
Notation "m ;;; k" := (bind m (fun _ => k))
  (at level 100, right associativity) : walk_scope.
Notation "x <~ m ;; k" := (rbind m (fun x => k))
  (at level 100, m at next level, right associativity) : walk_scope.

Local Open Scope walk_scope.

(** ** The label of a group header *)

(** The loop of [parse_label] over [enumerate(raw.split())]; [i] is the index
    of the word at the head, [parts] what was appended so far.  [split] yields
    no empty word, so [part[0]] exists. *)
Fixpoint label_parts (i : nat) (words : list string) (parts : list string)
  : list string :=
  match words with
  | [] => parts
  | part :: rest =>
      match part with
      | EmptyString => parts
      | String c _ =>
          if negb (PyStr.isalnum c) then parts
          else if Nat.eqb i 0
               then label_parts (S i) rest (parts ++ [PyStr.lower part])
               else label_parts (S i) rest (parts ++ [PyStr.capitalize part])
      end
  end.

(** The label computed from the string of the header. *)
Definition label_of (raw : string) : string :=
  PyStr.join (label_parts 0 (PyStr.split (PyStr.strip raw)) []).

Definition parse_label (tag : Tag) : string :=
  match Bs4.string tag with
  | None => EmptyString
  | Some raw => label_of raw
  end.

Definition START_TAGS : list string := ["dt"; "h2"].

(** [tag.name in START_TAGS] *)
Definition is_start (tag : Tag) : bool :=
  existsb (String.eqb (name tag)) START_TAGS.

(** ** The tree walker *)

Section Walker.

(** The nested calls of [parse_tag]. *)
Variable walk : TagRef -> Node -> M Node.

(** The loop of [parse_children]. *)
Fixpoint walk_children (l : list (string + TagRef)) (current_node : Node)
  : M Node :=
  match l with
  | [] => ret current_node
  | inl _ :: rest => walk_children rest current_node
  | inr child :: rest =>
      current_node <- walk child current_node ;;
      walk_children rest current_node
  end.

Definition parse_children (tag : TagRef) (current_node : Node) : M Node :=
  walk_children (Bs4.children tag) current_node.

(** The loop of [parse_siblings]: it returns at the first sibling that is a
    group header. *)
Fixpoint walk_siblings (l : list (string + TagRef)) (current_node : Node)
  : M Node :=
  match l with
  | [] => ret current_node
  | inl _ :: rest => walk_siblings rest current_node
  | inr sibling :: rest =>
      if is_start (elem sibling) then ret current_node
      else current_node <- walk sibling current_node ;;
           walk_siblings rest current_node
  end.

Definition parse_siblings (tag : TagRef) (current_node : Node) : M Node :=
  walk_siblings (Bs4.next_sibling_refs tag) current_node.

Definition property_value (property_name : string) (tag : TagRef) : M Value :=
  if Bs4.has_attr "itemscope" (elem tag) then
    child_node <- parse_children tag [] ;;
    ret (VDict child_node)
  else if Bs4.truthy (Bs4.get "content" (elem tag)) then
    ret (of_get (Bs4.get "content" (elem tag)))
  else if Bs4.truthy (Bs4.get "href" (elem tag)) then
    ret (of_get (Bs4.get "href" (elem tag)))
  else if Bs4.truthy (Bs4.get "src" (elem tag)) then
    ret (of_get (Bs4.get "src" (elem tag)))
  else if String.eqb property_name "content" then
    ret (VStr (Bs4.get_text (elem tag)))
  else
    match Bs4.string (elem tag) with
    | None => ret VNone
    | Some text => ret (VStr (PyStr.strip text))
    end.

(** [current_node[property_name].append(value)], after the list was created
    if the key was absent: only a list has [append]. *)
Definition append_value (property_name : string) (value : Value)
           (current_node : Node) : M Node :=
  let current_node :=
    if PyDict.mem property_name current_node then current_node
    else PyDict.set property_name (VList []) current_node in
  match PyDict.get property_name current_node with
  | Some (VList l) =>
      ret (PyDict.set property_name (VList (l ++ [value])) current_node)
  | _ => raise AttributeError
  end.

(** The body of [parse_tag]. *)
Definition parse_tag_body (tag : TagRef) (current_node : Node) : M Node :=
  seen <- visited (elem tag) ;;
  if seen : bool then ret current_node else
  mark (elem tag) ;;;
  if is_start (elem tag) then
    let label := parse_label (elem tag) in
    child_node <- parse_siblings tag [] ;;
    ret (PyDict.set label (VDict child_node) current_node)
  else
    let property_name := Bs4.get "itemprop" (elem tag) in
    if negb (Bs4.truthy property_name) then
      parse_children tag current_node
    else
      match property_name with
      | Some (AStr property_name) =>
          if String.eqb (name (elem tag)) "section" then ret current_node
          else
            value <- property_value property_name tag ;;
            if Bs4.has_attr "repeat" (elem tag)
            then append_value property_name value current_node
            else ret (PyDict.set property_name value current_node)
      | _ => raise AssertionError
      end.

End Walker.

(** [parse_tag] with at most [fuel] nested calls. *)
Fixpoint parse_tag_fuel (fuel : nat) : TagRef -> Node -> M Node :=
  match fuel with
  | 0 => fun _ _ => starve
  | S fuel' => parse_tag_body (parse_tag_fuel fuel')
  end.

(** [parse_tag]: the nesting of the calls is bounded by the number of
    elements in [tag] and after it. *)
Definition parse_tag (tag : TagRef) (current_node : Node) : M Node :=
  parse_tag_fuel (S (weight tag)) tag current_node.

(** ** The sections *)

(** [has_class]: [tag.get("class") or []] is a list of classes, or the
    attribute as one string, in which [in] looks for a substring. *)
Definition has_class (tag : Tag) (class_name : string) : bool :=
  match Bs4.get "class" tag with
  | Some (AList classes) => existsb (String.eqb class_name) classes
  | Some (AStr EmptyString) => false
  | Some (AStr classes) => PyStr.contains class_name classes
  | None => false
  end.

(** The fields [attrs_except_class] yields, which are also those of the loops
    at the head of [parse_description] and [parse_claims]. *)
Definition attrs_except_class (tag : Tag) : list Field :=
  map (fun kv => (fst kv, of_attr (snd kv)))
      (List.filter (fun kv => negb (String.eqb (fst kv) "class")) (attrs tag)).

(** [abstract.attrs.items()] *)
Definition attrs_items (tag : Tag) : list Field :=
  map (fun kv => (fst kv, of_attr (snd kv))) (attrs tag).

Definition parse_abstract (section : TagRef) : result (list Field) :=
  abstract <~ assert_found
    (Bs4.find (fun t => String.eqb (name (elem t)) "abstract") section) ;;
  Ok (attrs_items (elem abstract)
        ++ [("content", VStr (Bs4.get_text (elem abstract)))]).

(** [is_target] of [parse_description] *)
Definition is_target (tag : Tag) : bool :=
  String.eqb (name tag) "heading" || has_class tag "description-line".

(** [new_part] of [parse_description] *)
Definition new_part (heading : string) (lines : list Value) : Value :=
  VDict [("heading", VStr heading); ("lines", VList lines)].

(** One line of a part. *)
Definition line_of (tag : Tag) : Value :=
  VDict [("num", of_get (Bs4.get "num" tag));
         ("text", VStr (Bs4.get_text tag))].

(** The loop of [parse_description] over the headings and lines; the part
    being filled is [new_part heading lines].  It ends with the
    [parts.append(current_part)] that follows the loop. *)
Fixpoint description_parts (targets : list Tag) (parts : list Value)
         (heading : string) (lines : list Value) : list Value :=
  match targets with
  | [] => parts ++ [new_part heading lines]
  | tag :: rest =>
      let text := Bs4.get_text tag in
      if String.eqb (name tag) "heading"
      then description_parts rest (parts ++ [new_part heading lines]) text []
      else description_parts rest parts heading (lines ++ [line_of tag])
  end.

Definition parse_description (section : TagRef) : result (list Field) :=
  description <~ assert_found
    (Bs4.find (fun t => Bs4.class_matches "description" (elem t)) section) ;;
  let targets := map elem (Bs4.find_all (fun t => is_target (elem t)) description) in
  Ok (attrs_except_class (elem description)
        ++ [("parts", VList (description_parts targets [] "" []))]).

(** The loop of [find_claims]: [seen_tags] holds the identities of the claims
    met so far. *)
Fixpoint claims_of (text_tags : list TagRef) (seen_tags : gset nat)
  : result (list Tag) :=
  match text_tags with
  | [] => Ok []
  | text_tag :: rest =>
      claim <~ assert_found
        (Bs4.find_parent (fun t => has_class t "claim") text_tag) ;;
      if bool_decide (ident claim ∈ seen_tags)
      then claims_of rest ({[ident claim]} ∪ seen_tags)
      else more <~ claims_of rest ({[ident claim]} ∪ seen_tags) ;;
           Ok (claim :: more)
  end.

Definition find_claims (claims_tag : TagRef) : result (list Tag) :=
  claims_of (Bs4.find_all (fun t => has_class (elem t) "claim-text") claims_tag) ∅.

Definition parse_claim (claim : Tag) : list Field :=
  attrs_except_class claim ++ [("text", VStr (Bs4.get_text claim))].

Definition parse_claims (section : TagRef) : result (list Field) :=
  claims_tag <~ assert_found
    (Bs4.find (fun t => has_class (elem t) "claims") section) ;;
  claims <~ find_claims claims_tag ;;
  let parsed_claims :=
    map (fun claim => VDict (PyDict.of_fields (parse_claim claim))) claims in
  Ok (attrs_except_class (elem claims_tag)
        ++ [("claims", VList parsed_claims)]).

(** [is_section] of [parse_sections] *)
Definition is_section (tag : Tag) : bool :=
  String.eqb (name tag) "section" && Bs4.has_attr "itemscope" tag.

(** What [parse_sections] does with one section. *)
Definition parse_section (section : TagRef) (current_node : Node)
  : result Node :=
  match Bs4.get "itemprop" (elem section) with
  | None => Err KeyError
  | Some (AList _) => Err AssertionError
  | Some (AStr property_name) =>
      value <~
        (if String.eqb property_name "abstract" then
           fields <~ parse_abstract section ;; Ok (VDict (PyDict.of_fields fields))
         else if String.eqb property_name "description" then
           fields <~ parse_description section ;; Ok (VDict (PyDict.of_fields fields))
         else if String.eqb property_name "claims" then
           fields <~ parse_claims section ;; Ok (VDict (PyDict.of_fields fields))
         else Ok VNone) ;;
      Ok (PyDict.set property_name value current_node)
  end.

(** The loop of [parse_sections]. *)
Fixpoint each_section (sections : list TagRef) (current_node : Node)
  : result Node :=
  match sections with
  | [] => Ok current_node
  | section :: rest =>
      current_node <~ parse_section section current_node ;;
      each_section rest current_node
  end.

Definition parse_sections (article : TagRef) (current_node : Node)
  : result Node :=
  each_section (Bs4.find_all (fun t => is_section (elem t)) article) current_node.

(** ** [parse] *)

(** [soup] is the tree [BeautifulSoup(html, features="html.parser")] built:
    the document object, of which [soup.html] is the first element named
    [html]. *)
Definition parse (soup : Tag) : M Node :=
  match Bs4.find (fun t => String.eqb (name (elem t)) "html") (mkRef soup [] []) with
  | None => raise AssertionError
  | Some root =>
      match Bs4.find (fun t => String.eqb (name (elem t)) "article") root with
      | None => raise AssertionError
      | Some article =>
          data <- parse_tag article [] ;;
          lift (parse_sections article data)
      end
  end.

(** ** Notions used in the statements *)

(** [hack] only grows in a call that ends with [out]. *)
Definition grows {A : Type} (h : gset nat) (out : outcome (A * gset nat)) : Prop :=
  match out with
  | Done (_, h') => h ⊆ h'
  | _ => True
  end.

(** A walker that does not look at the parents of the element. *)
Definition parent_blind (F : TagRef -> Node -> M Node) : Prop :=
  forall e ns ps ps' c h, F (mkRef e ns ps) c h = F (mkRef e ns ps') c h.

(** Whether a child is a group header. *)
Definition is_start_pe (e : PageElement) : bool :=
  match e with
  | NavigableString _ => false
  | Element t => is_start t
  end.

(** A list of siblings that is empty or begins with a group header. *)
Definition group_end (l : list PageElement) : Prop :=
  match l with
  | [] => True
  | e :: _ => is_start_pe e = true
  end.

(** An element in the property case of [parse_tag] that carries the
    accumulation marker: no group header, the property name [property_name],
    not a section, and a [repeat] attribute. *)
Definition accumulating (property_name : string) (tag : Tag) : Prop :=
  is_start tag = false /\
  Bs4.get "itemprop" tag = Some (AStr property_name) /\
  property_name <> "" /\
  String.eqb (name tag) "section" = false /\
  Bs4.has_attr "repeat" tag = true.

(** The identities of the elements of a tree, and of a list of children. *)
Fixpoint idents (t : Tag) : list nat :=
  match t with
  | mkTag i _ _ cs => i :: flat_map idents_pe cs
  end
with idents_pe (e : PageElement) : list nat :=
  match e with
  | NavigableString _ => []
  | Element t => idents t
  end.

Definition idents_list (l : list PageElement) : list nat := flat_map idents_pe l.

(** The identities a walk that starts at [tag] can meet. *)
Definition reach (tag : TagRef) : list nat :=
  idents (elem tag) ++ idents_list (next_siblings tag).

(** The outcome of a call with the identities [extra] added to [hack]. *)
Definition frame {A : Type} (extra : gset nat) (out : outcome (A * gset nat))
  : outcome (A * gset nat) :=
  match out with
  | Done (a, h) => Done (a, h ∪ extra)
  | Raised e => Raised e
  | Starved => Starved
  end.

(** A walker to which identities it cannot meet make no difference. *)
Definition framed (F : TagRef -> Node -> M Node) (tag : TagRef) : Prop :=
  forall c h (extra : gset nat),
    (forall i, i ∈ reach tag -> i ∉ extra) ->
    F tag c (h ∪ extra) = frame extra (F tag c h).

(** ** The label as the specification describes it *)

(** Whether the first character of a word is alphanumeric. *)
Definition starts_alnum (word : string) : bool :=
  match word with
  | EmptyString => false
  | String c _ => PyStr.isalnum c
  end.

(** The first character in upper case, the others unchanged. *)
Definition upper_first (word : string) : string :=
  match word with
  | EmptyString => EmptyString
  | String c s => String (PyStr.upper_char c) s
  end.

(** The words up to the first one that does not start with an alphanumeric
    character. *)
Fixpoint retained (words : list string) : list string :=
  match words with
  | [] => []
  | w :: rest => if starts_alnum w then w :: retained rest else []
  end.

(** The label in the words of the specification: the first retained word in
    lower case, every later one with only its first character in upper case
    and the rest unchanged, joined without separator. *)
Definition label_as_specified (raw : string) : string :=
  match retained (PyStr.split (PyStr.strip raw)) with
  | [] => EmptyString
  | w :: rest => PyStr.join (PyStr.lower w :: map upper_first rest)
  end.

(** ** Notions used for the sections *)




(** The tree without the identities of its elements: two trees built from
    the same text differ in the identities only. *)
Fixpoint markup (t : Tag) : Tag :=
  match t with
  | mkTag _ n a cs =>
      mkTag 0 n a
        (map (fun e => match e with
                       | NavigableString s => NavigableString s
                       | Element c => Element (markup c)
                       end) cs)
  end.

(** ** Notions used for the claims *)

(** The leaves of a claims block, in document order. *)
Definition claim_texts (claims_tag : TagRef) : list TagRef :=
  Bs4.find_all (fun t => has_class (elem t) "claim-text") claims_tag.

(** The nearest parent of a leaf that has the class [claim]. *)
Definition nearest_claim (text_tag : TagRef) : option Tag :=
  Bs4.find_parent (fun t => has_class t "claim") text_tag.

(** One element per identity, each at the place where its identity comes
    first. *)
Fixpoint first_seen (l : list Tag) : list Tag :=
  match l with
  | [] => []
  | a :: rest =>
      a :: List.filter (fun b => negb (Nat.eqb (ident b) (ident a)))
                       (first_seen rest)
  end.

(** The entry of one claim in the field [claims]. *)
Definition claim_entry (claim : Tag) : Value :=
  VDict (PyDict.of_fields (parse_claim claim)).

(** ** Notions used for the shape of a label *)

(** Whether every character of a string satisfies [p]. *)
Fixpoint all_chars (p : ascii -> bool) (s : string) : bool :=
  match s with
  | EmptyString => true
  | String c s' => p c && all_chars p s'
  end.

(** A character below 128. *)
Definition is_ascii (c : ascii) : bool := (PyStr.code c <? 128)%nat.

(** Whether a string is empty or begins with a character that satisfies [p]. *)
Definition starts_with (p : ascii -> bool) (s : string) : bool :=
  match s with
  | EmptyString => true
  | String c _ => p c
  end.

(** An element in the property case of [parse_tag] without accumulation
    marker. *)
Definition plain (property_name : string) (tag : Tag) : Prop :=
  is_start tag = false /\
  Bs4.get "itemprop" tag = Some (AStr property_name) /\
  property_name <> "" /\
  String.eqb (name tag) "section" = false /\
  Bs4.has_attr "repeat" tag = false.

(** [hack] grows by identities of [ids] at most in a call that ends with
    [out]. *)
Definition bounded {A : Type} (ids h : gset nat) (out : outcome (A * gset nat))
  : Prop :=
  match out with
  | Done (_, h') => h' ⊆ h ∪ ids
  | _ => True
  end.

(** ** Notions used for the dispatch of the sections *)

(** The sections [parse_sections] goes through, in document order. *)
Definition sections_of (article : TagRef) : list TagRef :=
  Bs4.find_all (fun t => is_section (elem t)) article.

(** The three property names with a parser of their own. *)
Definition known_section (property_name : string) : bool :=
  String.eqb property_name "abstract"
  || String.eqb property_name "description"
  || String.eqb property_name "claims".


(** [main]: the address fetched for the argument [id_or_url]. *)
Definition url_of (id_or_url : string) : string :=
  if PyStr.contains "/" id_or_url then id_or_url
  else String.append "https://patents.google.com/patent/" id_or_url.

(** A call of the walker that, if it raises, raises [AssertionError] or
    [AttributeError]. *)
Definition tame {A : Type} (out : outcome A) : Prop :=
  forall e, out = Raised e -> e = AssertionError \/ e = AttributeError.

(** ** Sample documents *)

Module Samples.

Definition inventor : Tag := mkTag 4 "dt" [] [NavigableString "Inventor"].

Definition alice : Tag :=
  mkTag 5 "dd" [("itemprop", AStr "name"); ("repeat", AStr "")]
        [NavigableString "Alice"].

Definition bob : Tag :=
  mkTag 6 "dd" [("itemprop", AStr "name"); ("repeat", AStr "")]
        [NavigableString "Bob"].

Definition events : Tag := mkTag 7 "h2" [] [NavigableString "Legal Events"].

Definition title : Tag :=
  mkTag 8 "span" [("itemprop", AStr "title")] [NavigableString " A widget "].

(** Two groups: a header with two siblings, then a header with one. *)
Definition groups : list PageElement :=
  Element inventor :: [Element alice; NavigableString " "; Element bob]
  ++ Element events :: [Element title] ++ [].

(** A plain property followed by an accumulating one of the same name. *)
Definition carol : Tag :=
  mkTag 3 "span" [("itemprop", AStr "name")] [NavigableString "Carol"].

Definition scalar_then_repeat : Tag :=
  mkTag 0 "[document]" []
    [Element (mkTag 1 "html" []
       [Element (mkTag 2 "article" []
          [Element carol; Element Samples.alice])])].

(** An element whose [content] attribute is the empty string. *)
Definition empty_content : Tag :=
  mkTag 9 "a" [("itemprop", AStr "url"); ("content", AStr "");
               ("href", AStr "http://example.org/")]
        [NavigableString "link"].

(** An element with a [content] attribute, an [href], a [src] and a text. *)
Definition with_content : Tag :=
  mkTag 9 "a" [("itemprop", AStr "content"); ("content", AStr "2001-01-01");
               ("href", AStr "http://example.org/"); ("src", AStr "x.png")]
        [NavigableString "link"].

(** A document without article. *)
Definition no_article : Tag :=
  mkTag 0 "[document]" []
    [Element (mkTag 1 "html" []
       [Element (mkTag 2 "body" [] [Element Samples.title])])].

Definition legal_events : Tag := mkTag 7 "h2" [] [NavigableString "Legal EVents"].

(** An abstract whose element carries a [class] attribute. *)
Definition abstract_section : Tag :=
  mkTag 20 "section" [("itemprop", AStr "abstract"); ("itemscope", AStr "")]
    [Element (mkTag 21 "abstract"
       [("lang", AStr "EN"); ("class", AList ["abstract"])]
       [Element (mkTag 22 "div" [("class", AList ["abstract"])]
          [NavigableString " A widget. "])])].

(** A description: a line, a heading, two lines, a heading. *)
Definition line (i : nat) (num text : string) : PageElement :=
  Element (mkTag i "div" [("class", AList ["description-line"]); ("num", AStr num)]
             [NavigableString text]).

Definition heading (i : nat) (text : string) : PageElement :=
  Element (mkTag i "heading" [] [NavigableString text]).

Definition description_div : Tag :=
  mkTag 31 "div" [("class", AList ["description"]); ("lang", AStr "EN")]
    [line 32 "0001" "Preamble.";
     heading 33 "BACKGROUND";
     line 34 "0002" "First.";
     line 35 "0003" "Second.";
     heading 36 "SUMMARY"].

Definition description_section : Tag :=
  mkTag 30 "section" [("itemprop", AStr "description"); ("itemscope", AStr "")]
    [Element description_div].


(** One document, and the tree a second run builds from the same text: the
    elements are new objects, and the [span] got the address the first [dd]
    had in the first run. *)
Definition page : Tag :=
  mkTag 0 "[document]" []
    [Element (mkTag 1 "html" []
       [Element (mkTag 2 "article" []
          [Element (mkTag 3 "dd" [("itemprop", AStr "name")] [NavigableString "Alice"]);
           Element (mkTag 4 "span" [("itemprop", AStr "title")]
                      [NavigableString "A widget"])])])].

Definition page_again : Tag :=
  mkTag 10 "[document]" []
    [Element (mkTag 11 "html" []
       [Element (mkTag 12 "article" []
          [Element (mkTag 13 "dd" [("itemprop", AStr "name")] [NavigableString "Alice"]);
           Element (mkTag 3 "span" [("itemprop", AStr "title")]
                      [NavigableString "A widget"])])])].

Definition leaf (i : nat) (text : string) : PageElement :=
  Element (mkTag i "div" [("class", AList ["claim-text"])] [NavigableString text]).

Definition wrap (i : nat) (e : PageElement) : PageElement :=
  Element (mkTag i "div" [] [e]).

(** A claim with two leaves at depth 2. *)
Definition claim1 : Tag :=
  mkTag 41 "div" [("class", AList ["claim"]); ("num", AStr "00001")]
    [wrap 42 (leaf 43 " 1. A widget "); wrap 44 (leaf 45 "with a handle.")].

(** A claim with one leaf at depth 4. *)
Definition claim2 : Tag :=
  mkTag 46 "div" [("class", AList ["claim"; "claim-dependent"]); ("num", AStr "00002")]
    [wrap 47 (wrap 48 (wrap 49 (leaf 50 "2. The widget of claim 1.")))].

Definition claims_div : Tag :=
  mkTag 40 "div" [("class", AList ["claims"]); ("lang", AStr "EN")]
    [Element claim1; NavigableString " "; Element claim2].

Definition claims_section : Tag :=
  mkTag 39 "section" [("itemprop", AStr "claims"); ("itemscope", AStr "")]
    [Element claims_div].

(** A whole document: two groups and an abstract. *)
Definition patent : Tag :=
  mkTag 0 "[document]" []
    [Element (mkTag 1 "html" []
       [Element (mkTag 2 "body" []
          [Element (mkTag 3 "article" []
             [Element (mkTag 60 "dl" [] groups);
              Element abstract_section])])])].

(** A header whose text has a word that starts with a bracket, and blanks
    around. *)
Definition priority : Tag :=
  mkTag 70 "dt" [] [NavigableString "  Priority DATE (2001) year "].

(** A third inventor, and a record that holds two. *)
Definition dave : Tag :=
  mkTag 71 "dd" [("itemprop", AStr "name"); ("repeat", AStr "")]
        [NavigableString "Dave"].

Definition two_names : Node :=
  [("date", VStr "2001"); ("name", VList [VStr "Alice"; VStr "Bob"])].

(** A section with a property name and annotated children. *)
Definition skipped_section : Tag :=
  mkTag 72 "section" [("itemprop", AStr "claims"); ("itemscope", AStr "")]
    [Element (mkTag 73 "span" [("itemprop", AStr "count")] [NavigableString "7"])].

(** Elements for the value of a property. *)
Definition no_value : Tag :=
  mkTag 74 "span" [("itemprop", AStr "title"); ("content", AStr "")]
    [Element (mkTag 75 "b" [] [NavigableString "A"]);
     Element (mkTag 76 "i" [] [NavigableString "B"])].

Definition with_href : Tag :=
  mkTag 77 "a" [("itemprop", AStr "content"); ("href", AStr "/patent/X");
                ("src", AStr "x.png")] [NavigableString "link"].

Definition with_src : Tag :=
  mkTag 78 "img" [("itemprop", AStr "content"); ("src", AStr "x.png")]
    [NavigableString "alt"].


(** Two headers with the same label, each with one sibling. *)
Definition inventor_again : Tag :=
  mkTag 79 "dt" [] [NavigableString " inventor "].

Definition collision : list PageElement :=
  Element inventor :: [Element alice]
  ++ Element inventor_again :: [Element title] ++ [].


(** A section with a property name that has no parser. *)
Definition other_section : Tag :=
  mkTag 80 "section" [("itemprop", AStr "family"); ("itemscope", AStr "")]
    [Element (mkTag 81 "span" [("itemprop", AStr "count")] [NavigableString "7"])].

(** A section without property name. *)
Definition nameless_section : Tag :=
  mkTag 82 "section" [("itemscope", AStr "")] [NavigableString "x"].

(** An article with the abstract, a section without parser and a second
    abstract. *)
Definition abstract_with_content : Tag :=
  mkTag 84 "abstract" [("content", AStr "attribute")] [NavigableString "Second."].

Definition second_abstract : Tag :=
  mkTag 83 "section" [("itemprop", AStr "abstract"); ("itemscope", AStr "")]
    [Element abstract_with_content].

Definition sections_article : Tag :=
  mkTag 85 "article" []
    [Element abstract_section; Element other_section; Element second_abstract].

(** A claims block with a leaf outside of any claim. *)
Definition orphan_claims : Tag :=
  mkTag 86 "div" [("class", AList ["claims"])]
    [Element claim1; leaf 87 "stray"].

Definition orphan_section : Tag :=
  mkTag 88 "section" [("itemprop", AStr "claims"); ("itemscope", AStr "")]
    [Element orphan_claims].

(** A header whose own child carries a property name, with no sibling before
    the next header. *)
Definition lonely : Tag :=
  mkTag 89 "dt" []
    [Element (mkTag 90 "span" [("itemprop", AStr "inside")] [NavigableString "IPC"])].

(** A document whose article holds a section without property name. *)
Definition nameless_page : Tag :=
  mkTag 0 "[document]" []
    [Element (mkTag 1 "html" []
       [Element (mkTag 2 "article" [] [Element nameless_section])])].

End Samples.

(** * Properties *)

(** ** The walker is well defined *)

Lemma size_list_cons e l : size_list (e :: l) = size_pe e + size_list l.
Proof. reflexivity. Qed.

Lemma size_unfold t : tag_size t = S (size_list (contents t)).
Proof. destruct t; reflexivity. Qed.

(** A child or sibling object weighs no more than the list it is taken from. *)
Lemma refs_weight ps l r : inr r ∈ Bs4.refs ps l -> weight r <= size_list l.
Proof.
  induction l as [|[s|t] l IH]; simpl; intros Hin.
  - inversion Hin.
  - apply elem_of_cons in Hin as [Heq|Hin]; [discriminate|].
    rewrite size_list_cons; simpl. auto.
  - rewrite size_list_cons; simpl.
    apply elem_of_cons in Hin as [Heq|Hin].
    + inversion Heq; subst. unfold weight; simpl. lia.
    + specialize (IH Hin). lia.
Qed.

Lemma children_weight tag r : inr r ∈ Bs4.children tag -> weight r < weight tag.
Proof.
  intros Hin. apply refs_weight in Hin.
  unfold weight at 2. rewrite size_unfold. lia.
Qed.

Lemma siblings_weight tag r :
  inr r ∈ Bs4.next_sibling_refs tag -> weight r < weight tag.
Proof.
  intros Hin. apply refs_weight in Hin.
  unfold weight at 2. rewrite size_unfold. lia.
Qed.

Section Extensionality.
Variables F G : TagRef -> Node -> M Node.

Lemma walk_children_ext l :
  (forall r, inr r ∈ l -> forall c h, F r c h = G r c h) ->
  forall c h, walk_children F l c h = walk_children G l c h.
Proof.
  induction l as [|[s|r] l IH]; intros Hl c h; simpl; auto.
  - apply IH. intros r Hr. apply Hl. by right.
  - unfold bind. rewrite (Hl r) by left.
    destruct (G r c h) as [[c' h']| |]; auto.
    apply IH. intros r' Hr'. apply Hl. by right.
Qed.

Lemma walk_siblings_ext l :
  (forall r, inr r ∈ l -> forall c h, F r c h = G r c h) ->
  forall c h, walk_siblings F l c h = walk_siblings G l c h.
Proof.
  induction l as [|[s|r] l IH]; intros Hl c h; simpl; auto.
  - apply IH. intros r Hr. apply Hl. by right.
  - destruct (is_start (elem r)); auto.
    unfold bind. rewrite (Hl r) by left.
    destruct (G r c h) as [[c' h']| |]; auto.
    apply IH. intros r' Hr'. apply Hl. by right.
Qed.

Lemma property_value_ext p tag :
  (forall r, weight r < weight tag -> forall c h, F r c h = G r c h) ->
  forall h, property_value F p tag h = property_value G p tag h.
Proof.
  intros Hl h. unfold property_value, parse_children.
  destruct (Bs4.has_attr "itemscope" (elem tag)); auto.
  unfold bind. rewrite walk_children_ext; auto.
  intros r Hr. apply Hl. by apply children_weight.
Qed.

Lemma parse_tag_body_ext tag :
  (forall r, weight r < weight tag -> forall c h, F r c h = G r c h) ->
  forall c h, parse_tag_body F tag c h = parse_tag_body G tag c h.
Proof.
  intros Hl c h. unfold parse_tag_body, bind, visited, mark.
  destruct (bool_decide _); auto.
  destruct (is_start (elem tag)).
  { unfold parse_siblings. rewrite walk_siblings_ext; auto.
    intros r Hr. apply Hl. by apply siblings_weight. }
  destruct (negb _).
  { unfold parse_children. apply walk_children_ext.
    intros r Hr. apply Hl. by apply children_weight. }
  destruct (Bs4.get "itemprop" (elem tag)) as [[p|]|]; auto.
  destruct (String.eqb _ _); auto.
  by rewrite property_value_ext.
Qed.
End Extensionality.

(** Calls beyond the weight of the element change nothing. *)
Lemma fuel_irrelevant f1 : forall f2 tag,
  weight tag < f1 -> weight tag < f2 ->
  forall c h, parse_tag_fuel f1 tag c h = parse_tag_fuel f2 tag c h.
Proof.
  induction f1 as [|f1 IH]; intros [|f2] tag H1 H2 c h; try lia.
  simpl. apply parse_tag_body_ext. intros r Hr c' h'.
  apply IH; lia.
Qed.

(** [parse_tag] satisfies the equation of its body. *)
Lemma parse_tag_unfold tag c h :
  parse_tag tag c h = parse_tag_body parse_tag tag c h.
Proof.
  unfold parse_tag at 1. simpl. apply parse_tag_body_ext.
  intros r Hr c' h'. unfold parse_tag. apply fuel_irrelevant; lia.
Qed.

(** The walk never runs out of calls. *)
Section Totality.
Variable F : TagRef -> Node -> M Node.

Lemma walk_children_total l :
  (forall r, inr r ∈ l -> forall c h, F r c h <> Starved) ->
  forall c h, walk_children F l c h <> Starved.
Proof.
  induction l as [|[s|r] l IH]; intros Hl c h; simpl; try done.
  - apply IH. intros r Hr. apply Hl. by right.
  - unfold bind. pose proof (Hl r ltac:(left) c h) as Hr.
    destruct (F r c h) as [[c' h']| |]; try done.
    apply IH. intros r' Hr'. apply Hl. by right.
Qed.

Lemma walk_siblings_total l :
  (forall r, inr r ∈ l -> forall c h, F r c h <> Starved) ->
  forall c h, walk_siblings F l c h <> Starved.
Proof.
  induction l as [|[s|r] l IH]; intros Hl c h; simpl; try done.
  - apply IH. intros r Hr. apply Hl. by right.
  - destruct (is_start (elem r)); try done.
    unfold bind. pose proof (Hl r ltac:(left) c h) as Hr.
    destruct (F r c h) as [[c' h']| |]; try done.
    apply IH. intros r' Hr'. apply Hl. by right.
Qed.

Lemma parse_tag_body_total tag :
  (forall r, weight r < weight tag -> forall c h, F r c h <> Starved) ->
  forall c h, parse_tag_body F tag c h <> Starved.
Proof.
  intros Hl c h. unfold parse_tag_body, bind, visited, mark.
  destruct (bool_decide _); try done.
  destruct (is_start (elem tag)).
  { unfold parse_siblings.
    pose proof (walk_siblings_total (Bs4.next_sibling_refs tag)
      (fun r Hr => Hl r (siblings_weight _ _ Hr)) [] ({[ident (elem tag)]} ∪ h)) as Hs.
    destruct (walk_siblings _ _ _ _) as [[c' h']| |]; done. }
  pose proof (walk_children_total (Bs4.children tag)
      (fun r Hr => Hl r (children_weight _ _ Hr))) as Hc.
  destruct (negb _); [apply Hc|].
  destruct (Bs4.get "itemprop" (elem tag)) as [[p|]|]; try done.
  destruct (String.eqb _ _); try done.
  unfold property_value, parse_children, bind.
  destruct (Bs4.has_attr "itemscope" (elem tag)).
  { specialize (Hc [] ({[ident (elem tag)]} ∪ h)).
    destruct (walk_children _ _ _ _) as [[c' h']| |]; try done.
    unfold ret. destruct (Bs4.has_attr "repeat" _); try done.
    unfold append_value. repeat case_match; done. }
  unfold ret, append_value, raise. repeat case_match; done.
Qed.
End Totality.

Lemma parse_tag_fuel_total f : forall tag c h,
  weight tag < f -> parse_tag_fuel f tag c h <> Starved.
Proof.
  induction f as [|f IH]; intros tag c h Hw; [lia|].
  simpl. apply parse_tag_body_total. intros r Hr c' h'. apply IH. lia.
Qed.

Lemma parse_tag_total tag c h : parse_tag tag c h <> Starved.
Proof. apply parse_tag_fuel_total. lia. Qed.


(** [parse] ends with a record or with an exception. *)
Lemma parse_total soup h : parse soup h <> Starved.
Proof.
  unfold parse. repeat case_match; try done.
  unfold bind. pose proof (parse_tag_total t0 [] h) as Ht.
  destruct (parse_tag t0 [] h) as [[c' h']| |]; try done.
  unfold lift. by case_match.
Qed.

(** ** The set [hack] only grows, and a visited element is left alone *)


Section Growth.
Variable F : TagRef -> Node -> M Node.

Lemma walk_children_grows l :
  (forall r, inr r ∈ l -> forall c h, grows h (F r c h)) ->
  forall c h, grows h (walk_children F l c h).
Proof.
  induction l as [|[s|r] l IH]; intros Hl c h; simpl; try done.
  - apply IH. intros r Hr. apply Hl. by right.
  - unfold bind. pose proof (Hl r ltac:(left) c h) as Hr.
    destruct (F r c h) as [[c' h']| |]; try done.
    assert (grows h' (walk_children F l c' h')) as Hg.
    { apply IH. intros r' Hr'. apply Hl. by right. }
    simpl in Hr. destruct (walk_children F l c' h') as [[c2 h2]| |]; try done.
    simpl in *. set_solver.
Qed.

Lemma walk_siblings_grows l :
  (forall r, inr r ∈ l -> forall c h, grows h (F r c h)) ->
  forall c h, grows h (walk_siblings F l c h).
Proof.
  induction l as [|[s|r] l IH]; intros Hl c h; simpl; try done.
  - apply IH. intros r Hr. apply Hl. by right.
  - destruct (is_start (elem r)); [simpl; set_solver|].
    unfold bind. pose proof (Hl r ltac:(left) c h) as Hr.
    destruct (F r c h) as [[c' h']| |]; try done.
    assert (grows h' (walk_siblings F l c' h')) as Hg.
    { apply IH. intros r' Hr'. apply Hl. by right. }
    simpl in Hr. destruct (walk_siblings F l c' h') as [[c2 h2]| |]; try done.
    simpl in *. set_solver.
Qed.

Lemma property_value_grows p tag :
  (forall r, weight r < weight tag -> forall c h, grows h (F r c h)) ->
  forall h, grows h (property_value F p tag h).
Proof.
  intros Hl h. unfold property_value, parse_children, bind.
  destruct (Bs4.has_attr "itemscope" (elem tag)).
  - pose proof (walk_children_grows (Bs4.children tag)
      (fun r Hr => Hl r (children_weight _ _ Hr)) [] h) as Hc.
    destruct (walk_children _ _ _ _) as [[c' h']| |]; simpl in *; done.
  - unfold ret. repeat case_match; simpl; set_solver.
Qed.

Lemma append_value_state p v c h :
  forall c' h', append_value p v c h = Done (c', h') -> h' = h.
Proof.
  unfold append_value, ret, raise. intros c' h' H.
  repeat case_match; congruence.
Qed.

(** After its body ran, the element is in [hack]. *)
Lemma parse_tag_body_marks tag :
  (forall r, weight r < weight tag -> forall c h, grows h (F r c h)) ->
  forall c h c' h', parse_tag_body F tag c h = Done (c', h') ->
  h ⊆ h' /\ ident (elem tag) ∈ h'.
Proof.
  intros Hl c h c' h'. unfold parse_tag_body, bind, visited, mark.
  destruct (bool_decide_reflect (ident (elem tag) ∈ h)) as [Hin|Hin].
  { unfold ret. intros [= <- <-]. done. }
  set (h1 := {[ident (elem tag)]} ∪ h).
  assert (h ⊆ h1 /\ ident (elem tag) ∈ h1) as [Hsub Hid] by set_solver.
  clearbody h1.
  destruct (is_start (elem tag)).
  { unfold parse_siblings.
    pose proof (walk_siblings_grows (Bs4.next_sibling_refs tag)
      (fun r Hr => Hl r (siblings_weight _ _ Hr)) [] h1) as Hs.
    destruct (walk_siblings _ _ _ _) as [[c2 h2]| |]; try done.
    unfold ret. intros [= <- <-]. simpl in Hs. set_solver. }
  pose proof (walk_children_grows (Bs4.children tag)
      (fun r Hr => Hl r (children_weight _ _ Hr))) as Hc.
  destruct (negb _).
  { intros H. specialize (Hc c h1). unfold parse_children in H.
    rewrite H in Hc. simpl in Hc. set_solver. }
  destruct (Bs4.get "itemprop" (elem tag)) as [[p|]|]; try done.
  destruct (String.eqb _ _).
  { unfold ret. intros [= <- <-]. done. }
  pose proof (property_value_grows p tag Hl h1) as Hp.
  destruct (property_value F p tag h1) as [[v h2]| |]; try done.
  simpl in Hp. destruct (Bs4.has_attr "repeat" _).
  - intros H. apply append_value_state in H. subst. set_solver.
  - unfold ret. intros [= <- <-]. set_solver.
Qed.
End Growth.

Lemma parse_tag_fuel_grows f : forall tag c h,
  grows h (parse_tag_fuel f tag c h).
Proof.
  induction f as [|f IH]; intros tag c h; [done|].
  simpl. destruct (parse_tag_body _ tag c h) as [[c' h']| |] eqn:E; try done.
  apply parse_tag_body_marks in E as [? ?]; auto.
Qed.

Lemma parse_tag_grows tag c h : grows h (parse_tag tag c h).
Proof. apply parse_tag_fuel_grows. Qed.

Lemma parse_tag_marks tag c h c' h' :
  parse_tag tag c h = Done (c', h') -> h ⊆ h' /\ ident (elem tag) ∈ h'.
Proof.
  rewrite parse_tag_unfold. apply parse_tag_body_marks.
  intros r _ c0 h0. apply parse_tag_grows.
Qed.

(** Walking an element that is in [hack] changes neither the record nor
    [hack]. *)
Lemma parse_tag_visited tag c h :
  ident (elem tag) ∈ h -> parse_tag tag c h = Done (c, h).
Proof.
  intros Hin. rewrite parse_tag_unfold.
  unfold parse_tag_body, bind, visited. by rewrite bool_decide_eq_true_2.
Qed.

(** The start of the walk of an element that is not in [hack]. *)
Lemma parse_tag_fresh tag c h :
  ident (elem tag) ∉ h ->
  parse_tag tag c h =
  (if is_start (elem tag) then
     child_node <- parse_siblings parse_tag tag [] ;;
     ret (PyDict.set (parse_label (elem tag)) (VDict child_node) c)
   else
     if negb (Bs4.truthy (Bs4.get "itemprop" (elem tag))) then
       parse_children parse_tag tag c
     else
       match Bs4.get "itemprop" (elem tag) with
       | Some (AStr property_name) =>
           if String.eqb (name (elem tag)) "section" then ret c
           else
             value <- property_value parse_tag property_name tag ;;
             if Bs4.has_attr "repeat" (elem tag)
             then append_value property_name value c
             else ret (PyDict.set property_name value c)
       | _ => raise AssertionError
       end) ({[ident (elem tag)]} ∪ h).
Proof.
  intros Hin. rewrite parse_tag_unfold.
  unfold parse_tag_body at 1, bind at 1 2, visited, mark.
  by rewrite bool_decide_eq_false_2.
Qed.

(** ** The walk of an element does not depend on where the element is *)


Section Blind.
Variable F : TagRef -> Node -> M Node.
Hypothesis F_blind : parent_blind F.

Lemma walk_children_blind l ps ps' : forall c h,
  walk_children F (Bs4.refs ps l) c h = walk_children F (Bs4.refs ps' l) c h.
Proof.
  induction l as [|[s|t] l IH]; intros c h; simpl; auto.
  unfold bind. rewrite (F_blind t l ps ps').
  destruct (F _ c h) as [[c' h']| |]; auto.
Qed.

Lemma walk_siblings_blind l ps ps' : forall c h,
  walk_siblings F (Bs4.refs ps l) c h = walk_siblings F (Bs4.refs ps' l) c h.
Proof.
  induction l as [|[s|t] l IH]; intros c h; simpl; auto.
  destruct (is_start t); auto.
  unfold bind. rewrite (F_blind t l ps ps').
  destruct (F _ c h) as [[c' h']| |]; auto.
Qed.

Lemma parse_tag_body_blind : parent_blind (parse_tag_body F).
Proof.
  intros e ns ps ps' c h.
  unfold parse_tag_body, property_value, parse_children, parse_siblings,
    Bs4.children, Bs4.next_sibling_refs, bind, visited, mark; simpl.
  destruct (bool_decide _); auto.
  destruct (is_start e).
  { by rewrite (walk_siblings_blind ns ps ps'). }
  destruct (negb _).
  { apply walk_children_blind. }
  destruct (Bs4.get "itemprop" e) as [[p|]|]; auto.
  destruct (String.eqb _ _); auto.
  destruct (Bs4.has_attr "itemscope" e); auto.
  by rewrite (walk_children_blind (contents e) (e :: ps) (e :: ps')).
Qed.
End Blind.

Lemma parse_tag_fuel_blind f : parent_blind (parse_tag_fuel f).
Proof.
  induction f as [|f IH]; [done|].
  simpl. by apply parse_tag_body_blind.
Qed.

Lemma parse_tag_blind : parent_blind parse_tag.
Proof. intros e ns ps ps' c h. apply parse_tag_fuel_blind. Qed.

(** An element that is no group header is walked the same way whatever
    follows it. *)
Lemma parse_tag_position e ns ns' ps ps' c h :
  is_start e = false ->
  parse_tag (mkRef e ns ps) c h = parse_tag (mkRef e ns' ps') c h.
Proof.
  intros He. rewrite (parse_tag_blind e ns ps ps').
  rewrite !parse_tag_unfold.
  unfold parse_tag_body, property_value, parse_children, Bs4.children; simpl.
  by rewrite He.
Qed.


(** [parse_siblings] walks the siblings up to the next group header, and
    those only. *)
Lemma walk_siblings_run ps ps' sibs rest :
  Forall (fun e => is_start_pe e = false) sibs ->
  group_end rest ->
  forall c h,
    walk_siblings parse_tag (Bs4.refs ps (sibs ++ rest)) c h
    = walk_children parse_tag (Bs4.refs ps' sibs) c h.
Proof.
  intros Hs Hend. induction Hs as [|[s|t] sibs He Hs IH]; intros c h; simpl.
  - destruct rest as [|[s|t] rest]; simpl in *; try done.
    by rewrite Hend.
  - apply IH.
  - simpl in He. rewrite He. unfold bind.
    rewrite (parse_tag_position t (sibs ++ rest) sibs ps ps') by done.
    destruct (parse_tag _ c h) as [[c' h']| |]; auto.
Qed.

(** After a list of children was walked, its elements are in [hack]. *)
Lemma walk_children_marks ps l : forall c h c' h',
  walk_children parse_tag (Bs4.refs ps l) c h = Done (c', h') ->
  h ⊆ h' /\ forall t, Element t ∈ l -> ident t ∈ h'.
Proof.
  induction l as [|[s|t] l IH]; intros c h c' h'; simpl.
  - intros [= <- <-]. split; [done|]. intros t Ht. inversion Ht.
  - intros Hw. pose proof (IH _ _ _ _ Hw) as [? Hl]. split; [done|].
    intros t Ht. apply elem_of_cons in Ht as [?|?]; [done|auto].
  - unfold bind.
    destruct (parse_tag _ c h) as [[c1 h1]| |] eqn:E; try done.
    apply parse_tag_marks in E as [Hsub Hid]; simpl in Hid.
    intros Hw. pose proof (IH _ _ _ _ Hw) as [Hsub' Hl]. split; [by etrans|].
    intros t' Ht. apply elem_of_cons in Ht as [Heq|?]; [|auto].
    inversion Heq; subst. by apply Hsub'.
Qed.

(** Children that are in [hack] are passed over. *)
Lemma walk_children_skip ps l rest c h :
  (forall t, Element t ∈ l -> ident t ∈ h) ->
  walk_children parse_tag (Bs4.refs ps (l ++ rest)) c h
  = walk_children parse_tag (Bs4.refs ps rest) c h.
Proof.
  induction l as [|[s|t] l IH]; intros Hl; simpl; auto.
  - apply IH. intros t Ht. apply Hl. by right.
  - unfold bind. rewrite parse_tag_visited by (simpl; apply Hl; left).
    apply IH. intros t' Ht. apply Hl. by right.
Qed.

(** ** The walk of two groups *)

(** The loop over the children on a group, the next header and its run. *)
Lemma walk_two_groups ps h1 sibs h2 sibs2 tail
      current_node hack child1 hack1 child2 hack2 :
  is_start h1 = true ->
  is_start h2 = true ->
  Forall (fun e => is_start_pe e = false) sibs ->
  Forall (fun e => is_start_pe e = false) sibs2 ->
  group_end tail ->
  ident h1 ∉ hack ->
  walk_children parse_tag (Bs4.refs ps sibs) [] ({[ident h1]} ∪ hack)
    = Done (child1, hack1) ->
  ident h2 ∉ hack1 ->
  walk_children parse_tag (Bs4.refs ps sibs2) [] ({[ident h2]} ∪ hack1)
    = Done (child2, hack2) ->
  walk_children parse_tag
    (Bs4.refs ps (Element h1 :: sibs ++ Element h2 :: sibs2 ++ tail))
    current_node hack
  = walk_children parse_tag (Bs4.refs ps tail)
      (PyDict.set (parse_label h2) (VDict child2)
         (PyDict.set (parse_label h1) (VDict child1) current_node))
      hack2.
Proof.
  intros Hh1 Hh2 Hs1 Hs2 Hend Hf1 Hw1 Hf2 Hw2.
  cbn [Bs4.refs walk_children]. unfold bind at 1.
  rewrite parse_tag_fresh by done. cbn [elem].
  rewrite Hh1. unfold bind at 1, parse_siblings, Bs4.next_sibling_refs.
  cbn [parents next_siblings].
  rewrite (walk_siblings_run ps ps sibs (Element h2 :: sibs2 ++ tail)) by done.
  rewrite Hw1. unfold ret at 1.
  apply walk_children_marks in Hw1 as [_ Hv1].
  rewrite walk_children_skip by done.
  cbn [Bs4.refs walk_children]. unfold bind at 1.
  rewrite parse_tag_fresh by done. cbn [elem].
  rewrite Hh2. unfold bind at 1, parse_siblings, Bs4.next_sibling_refs.
  cbn [parents next_siblings].
  rewrite (walk_siblings_run ps ps sibs2 tail) by done.
  rewrite Hw2. unfold ret at 1.
  apply walk_children_marks in Hw2 as [_ Hv2].
  by rewrite walk_children_skip.
Qed.

(** ** Dictionaries *)

Section DictFacts.
Context {V : Type}.
Implicit Types (d : list (string * V)) (k : string) (v : V).

Lemma get_set_eq k v d : PyDict.get k (PyDict.set k v d) = Some v.
Proof.
  induction d as [|[k' v'] d IH]; simpl.
  - by rewrite String.eqb_refl.
  - destruct (String.eqb k' k) eqn:E; simpl; by rewrite E.
Qed.

Lemma get_set_ne k k' v d :
  k <> k' -> PyDict.get k' (PyDict.set k v d) = PyDict.get k' d.
Proof.
  intros Hne. induction d as [|[k0 v0] d IH]; simpl.
  - by apply String.eqb_neq in Hne as ->.
  - destruct (String.eqb k0 k) eqn:E; simpl; [|by rewrite IH].
    apply String.eqb_eq in E as ->.
    by apply String.eqb_neq in Hne as ->.
Qed.

Lemma mem_set k v d : PyDict.mem k (PyDict.set k v d) = true.
Proof. unfold PyDict.mem. by rewrite get_set_eq. Qed.

Lemma mem_get_none k d : PyDict.get k d = None -> PyDict.mem k d = false.
Proof. unfold PyDict.mem. by intros ->. Qed.

Lemma mem_get_some k d v : PyDict.get k d = Some v -> PyDict.mem k d = true.
Proof. unfold PyDict.mem. by intros ->. Qed.
End DictFacts.

(** ** Sibling grouping *)




(** ** Accumulation *)

(** What [parse_tag] does with an accumulating element that is not in
    [hack]. *)
Lemma parse_tag_accumulating tag p c h :
  ident (elem tag) ∉ h ->
  accumulating p (elem tag) ->
  parse_tag tag c h =
  (value <- property_value parse_tag p tag ;; append_value p value c)
    ({[ident (elem tag)]} ∪ h).
Proof.
  intros Hf (Hs & Hp & Hne & Hsec & Hrep).
  rewrite parse_tag_fresh by done.
  rewrite Hs, Hp, Hsec. simpl.
  destruct p; [by destruct Hne|]. simpl. unfold bind. by rewrite Hrep.
Qed.

(** The loop over the children passes over the strings. *)
Lemma walk_children_strings F ps texts e c h :
  walk_children F (Bs4.refs ps (map NavigableString texts ++ [Element e])) c h
  = F (mkRef e [] ps) c h.
Proof.
  induction texts as [|s texts IH]; simpl; [|done].
  unfold bind. by destruct (F _ c h) as [[??]| |].
Qed.

(** C2. Two sibling elements with the property name [p] and the accumulation
    marker, with only strings between them, walked from a record that does not
    hold [p]: if their values are [va] and [vb], the record binds [p] to the
    list of [va] and [vb], in this order. *)
Theorem repeat_accumulates ps e1 texts e2 p current_node hack va hack1 vb hack2 :
  let r1 := mkRef e1 (map NavigableString texts ++ [Element e2]) ps in
  let r2 := mkRef e2 [] ps in
  accumulating p e1 ->
  accumulating p e2 ->
  PyDict.get p current_node = None ->
  ident e1 ∉ hack ->
  property_value parse_tag p r1 ({[ident e1]} ∪ hack) = Done (va, hack1) ->
  ident e2 ∉ hack1 ->
  property_value parse_tag p r2 ({[ident e2]} ∪ hack1) = Done (vb, hack2) ->
  exists node,
    walk_children parse_tag
      (Bs4.refs ps (Element e1 :: map NavigableString texts ++ [Element e2]))
      current_node hack = Done (node, hack2)
    /\ PyDict.get p node = Some (VList [va; vb]).
Proof.
  intros r1 r2 Ha1 Ha2 Hnone Hf1 Hv1 Hf2 Hv2.
  cbn [Bs4.refs walk_children]. fold r1. unfold bind at 1.
  rewrite (parse_tag_accumulating r1 p) by done.
  unfold bind at 1. cbn [elem r1]. rewrite Hv1.
  unfold append_value at 1. rewrite (mem_get_none _ _ Hnone), get_set_eq.
  cbn [ret app].
  set (node1 := PyDict.set p (VList [va]) (PyDict.set p (VList []) current_node)).
  rewrite walk_children_strings. fold r2.
  rewrite (parse_tag_accumulating r2 p) by done.
  unfold bind at 1. cbn [elem r2]. rewrite Hv2.
  unfold append_value. subst node1.
  rewrite mem_set, get_set_eq. cbn [ret app].
  eexists; split; [reflexivity|]. apply get_set_eq.
Qed.

(** ** Accumulation on a value that is no list *)

(** Only a list has [append]. *)
Lemma append_on_scalar tag p current_node hack old value hack1 :
  accumulating p (elem tag) ->
  ident (elem tag) ∉ hack ->
  PyDict.get p current_node = Some old ->
  (forall l, old <> VList l) ->
  property_value parse_tag p tag ({[ident (elem tag)]} ∪ hack)
    = Done (value, hack1) ->
  parse_tag tag current_node hack = Raised AttributeError.
Proof.
  intros Ha Hf Hold Hnl Hv.
  rewrite (parse_tag_accumulating tag p) by done.
  unfold bind. rewrite Hv. unfold append_value.
  rewrite (mem_get_some _ _ _ Hold), Hold.
  destruct old; try done. by destruct (Hnl l).
Qed.

(** C10. An accumulating element whose property name is bound in the current
    record to a value that is no list: [parse_tag] raises an exception, and so
    does the caller whatever it would do next; no record is returned, so the
    value is neither turned into a list nor overwritten.  The exception is the
    [AttributeError] of [append] as soon as the value of the element itself
    was computed. *)
Theorem repeat_on_scalar_raises tag p current_node hack old :
  accumulating p (elem tag) ->
  ident (elem tag) ∉ hack ->
  PyDict.get p current_node = Some old ->
  (forall l, old <> VList l) ->
  (exists e,
     parse_tag tag current_node hack = Raised e
     /\ forall (B : Type) (next : Node -> M B),
          bind (parse_tag tag current_node) next hack = Raised e)
  /\ (forall value hack1,
        property_value parse_tag p tag ({[ident (elem tag)]} ∪ hack)
          = Done (value, hack1) ->
        parse_tag tag current_node hack = Raised AttributeError).
Proof.
  intros Ha Hf Hold Hnl.
  assert (forall value hack1,
            property_value parse_tag p tag ({[ident (elem tag)]} ∪ hack)
              = Done (value, hack1) ->
            parse_tag tag current_node hack = Raised AttributeError) as Hdone.
  { intros value hack1. by apply append_on_scalar with old. }
  split; [|done].
  destruct (property_value parse_tag p tag ({[ident (elem tag)]} ∪ hack))
    as [[value hack1]|e|] eqn:Hv.
  - exists AttributeError. rewrite (Hdone value hack1 eq_refl).
    split; [done|]. intros B next. unfold bind. by rewrite (Hdone value hack1).
  - assert (parse_tag tag current_node hack = Raised e) as E.
    { rewrite (parse_tag_accumulating tag p) by done. unfold bind. by rewrite Hv. }
    exists e. split; [done|]. intros B next. unfold bind. by rewrite E.
  - destruct (parse_tag_total tag current_node hack).
    rewrite (parse_tag_accumulating tag p) by done. unfold bind. by rewrite Hv.
Qed.

(** An exception raised in the loop over the children ends the loop. *)
Lemma walk_children_app F l1 l2 c h :
  walk_children F (l1 ++ l2) c h
  = bind (walk_children F l1 c) (walk_children F l2) h.
Proof.
  revert c h. induction l1 as [|[s|r] l1 IH]; intros c h; simpl.
  - done.
  - apply IH.
  - unfold bind.
    destruct (F r c h) as [[c' h']| |]; auto.
Qed.

Lemma find_some p tag r : Bs4.find p tag = Some r -> p r = true.
Proof.
  unfold Bs4.find, Bs4.find_all. intros H.
  apply head_Some_elem_of in H.
  apply list_elem_of_In, filter_In in H. tauto.
Qed.

(** The exception of C10 leaves [parse] when the element is a child of the
    article. *)
Lemma repeat_on_scalar_aborts_parse
      soup root article before tag after p node hack0 hack old value hack1 :
  Bs4.find (fun t => String.eqb (name (elem t)) "html") (mkRef soup [] []) = Some root ->
  Bs4.find (fun t => String.eqb (name (elem t)) "article") root = Some article ->
  Bs4.truthy (Bs4.get "itemprop" (elem article)) = false ->
  ident (elem article) ∉ hack0 ->
  Bs4.children article = before ++ inr tag :: after ->
  walk_children parse_tag before [] ({[ident (elem article)]} ∪ hack0)
    = Done (node, hack) ->
  accumulating p (elem tag) ->
  ident (elem tag) ∉ hack ->
  PyDict.get p node = Some old ->
  (forall l, old <> VList l) ->
  property_value parse_tag p tag ({[ident (elem tag)]} ∪ hack)
    = Done (value, hack1) ->
  parse soup hack0 = Raised AttributeError.
Proof.
  intros Hroot Hart Hip Hf0 Hch Hbefore Ha Hf Hold Hnl Hv.
  unfold parse. rewrite Hroot, Hart. unfold bind at 1.
  rewrite parse_tag_fresh by done.
  apply find_some in Hart. apply String.eqb_eq in Hart.
  unfold is_start. rewrite Hart, Hip. simpl.
  unfold parse_children. rewrite Hch, walk_children_app.
  unfold bind at 1. rewrite Hbefore. simpl. unfold bind at 1.
  by rewrite (append_on_scalar tag p node hack old value hack1).
Qed.

(** C2 on two [dd] elements named [name] with a string between them. *)
Lemma repeat_accumulates_witness :
  exists node,
    walk_children parse_tag
      (Bs4.refs [] (Element Samples.alice
                    :: map NavigableString [" "] ++ [Element Samples.bob]))
      [] ∅ = Done (node, {[6]} ∪ ({[5]} ∪ ∅))
    /\ PyDict.get "name" node = Some (VList [VStr "Alice"; VStr "Bob"]).
Proof.
  refine (repeat_accumulates [] Samples.alice [" "] Samples.bob "name" [] ∅
            (VStr "Alice") ({[5]} ∪ ∅) (VStr "Bob") ({[6]} ∪ ({[5]} ∪ ∅))
            _ _ _ _ _ _ _).
  - repeat split; done.
  - repeat split; done.
  - reflexivity.
  - compute_done.
  - vm_compute. reflexivity.
  - compute_done.
  - vm_compute. reflexivity.
Defined.

(** C10 on a record that binds [name] to a string. *)
Lemma repeat_on_scalar_raises_witness :
  parse_tag (mkRef Samples.alice [] []) [("name", VStr "Carol")] ∅
  = Raised AttributeError.
Proof.
  refine (proj2 (repeat_on_scalar_raises (mkRef Samples.alice [] []) "name"
                   [("name", VStr "Carol")] ∅ (VStr "Carol") _ _ _ _)
                (VStr "Alice") ({[5]} ∪ ∅) _).
  - repeat split; done.
  - compute_done.
  - reflexivity.
  - intros l. discriminate.
  - vm_compute. reflexivity.
Defined.

(** The same on a whole document: [parse] ends with the exception. *)
Example scalar_then_repeat_raises :
  parse Samples.scalar_then_repeat ∅ = Raised AttributeError.
Proof. vm_compute. reflexivity. Qed.

(** ** The value of a property *)

(** C5, as amended. An element without [itemscope] whose [content] attribute
    is a string that is not empty: [property_value] returns this string,
    whatever the [href] and [src] attributes, the property name and the text
    of the element are. *)
Theorem content_attribute_wins walk property_name tag hack content :
  Bs4.has_attr "itemscope" (elem tag) = false ->
  Bs4.get "content" (elem tag) = Some (AStr content) ->
  content <> "" ->
  property_value walk property_name tag hack = Done (VStr content, hack).
Proof.
  intros Hscope Hc Hne. unfold property_value.
  rewrite Hscope, Hc. simpl.
  destruct content; [by destruct Hne|]. reflexivity.
Qed.

(** C5, as amended, on an element that also has [href], [src], a text and
    the property name [content]. *)
Lemma content_attribute_wins_witness :
  property_value parse_tag "content" (mkRef Samples.with_content [] []) ∅
  = Done (VStr "2001-01-01", ∅).
Proof.
  refine (content_attribute_wins parse_tag "content"
            (mkRef Samples.with_content [] []) ∅ "2001-01-01" _ _ _).
  - reflexivity.
  - reflexivity.
  - discriminate.
Defined.

(** C5, as stated, fails when the [content] attribute is the empty string:
    the element has no [itemscope] and has a [content] attribute, and
    [property_value] returns the [href], not the [content]. *)
Lemma content_attribute_empty_counterexample :
  let tag := mkRef Samples.empty_content [] [] in
  Bs4.has_attr "itemscope" (elem tag) = false
  /\ Bs4.get "content" (elem tag) = Some (AStr "")
  /\ property_value parse_tag "url" tag ∅ = Done (VStr "http://example.org/", ∅)
  /\ property_value parse_tag "url" tag ∅ <> Done (VStr "", ∅).
Proof. repeat split; try reflexivity. discriminate. Qed.

(** ** Documents without article *)

(** C8. A document without [html] element, or whose [html] element holds no
    [article] element: [parse] raises [AssertionError], whatever [hack] holds;
    it returns no record. *)
Theorem parse_without_article soup hack :
  (Bs4.find (fun t => String.eqb (name (elem t)) "html") (mkRef soup [] []) = None
   \/ exists root,
        Bs4.find (fun t => String.eqb (name (elem t)) "html") (mkRef soup [] [])
          = Some root
        /\ Bs4.find (fun t => String.eqb (name (elem t)) "article") root = None) ->
  parse soup hack = Raised AssertionError
  /\ forall data hack', parse soup hack <> Done (data, hack').
Proof.
  intros H.
  assert (parse soup hack = Raised AssertionError) as E.
  { unfold parse. destruct H as [->|(root & -> & ->)]; reflexivity. }
  split; [done|]. intros data hack'. by rewrite E.
Qed.

(** C8 on a document whose [html] element holds no [article]. *)
Lemma parse_without_article_witness :
  parse Samples.no_article ∅ = Raised AssertionError
  /\ forall data hack', parse Samples.no_article ∅ <> Done (data, hack').
Proof.
  refine (parse_without_article Samples.no_article ∅ _).
  right. eexists. split; reflexivity.
Defined.

(** ** The label of a group header *)

(** [split] yields no empty word, so that [part[0]] exists in the loop of
    [parse_label]. *)
Lemma split_from_nonempty s : forall w,
  Forall (fun word => word <> EmptyString) (PyStr.split_from w s).
Proof.
  induction s as [|c s IH]; intros w; simpl.
  - destruct w; repeat constructor. done.
  - destruct (PyStr.isspace c); [|apply IH].
    destruct w; [apply IH|]. constructor; [done|apply IH].
Qed.

Lemma split_nonempty s :
  Forall (fun word => word <> EmptyString) (PyStr.split s).
Proof. apply split_from_nonempty. Qed.

Example label_examples :
  label_of "IPC" = "ipc"
  /\ label_of " Legal  Events " = "legalEvents"
  /\ label_of "Publication number" = "publicationNumber"
  /\ label_of "Priority date (2001)" = "priorityDate"
  /\ label_of "(none)" = "".
Proof. repeat split; reflexivity. Qed.


Lemma label_parts_later words : forall i parts,
  i <> 0 ->
  forallb starts_alnum words = true ->
  label_parts i words parts = parts ++ map PyStr.capitalize words.
Proof.
  induction words as [|w words IH]; intros i parts Hi Hall; simpl.
  - by rewrite app_nil_r.
  - simpl in Hall. apply andb_prop in Hall as [Hw Hall].
    destruct w as [|c w]; [done|]. simpl in Hw. rewrite Hw. simpl.
    destruct i; [done|]. simpl.
    rewrite IH by done. by rewrite <- app_assoc.
Qed.

(** C3, as amended. When every word of the label text starts with an
    alphanumeric character, the label is the first word in lower case
    followed by every other word capitalized, that is with its first
    character in upper case and all its other characters in lower case. *)
Theorem parse_label_capitalizes tag raw :
  Bs4.string tag = Some raw ->
  forallb starts_alnum (PyStr.split (PyStr.strip raw)) = true ->
  parse_label tag =
  match PyStr.split (PyStr.strip raw) with
  | [] => EmptyString
  | w :: rest => PyStr.join (PyStr.lower w :: map PyStr.capitalize rest)
  end.
Proof.
  intros Hraw Hall. unfold parse_label, label_of. rewrite Hraw.
  destruct (PyStr.split (PyStr.strip raw)) as [|w rest]; [done|].
  simpl in Hall. apply andb_prop in Hall as [Hw Hall].
  destruct w as [|c w]; [done|]. simpl in Hw.
  cbn [label_parts]. rewrite Hw. cbn [negb Nat.eqb app].
  by rewrite label_parts_later.
Qed.

(** C3, as amended, on the header [Legal Events]. *)
Lemma parse_label_capitalizes_witness :
  parse_label Samples.events = "legalEvents".
Proof.
  refine (parse_label_capitalizes Samples.events "Legal Events" _ _).
  - reflexivity.
  - reflexivity.
Defined.

(** C3, as stated, fails on a later word with an upper case letter inside:
    every word of ["Legal EVents"] is retained, the label is ["legalEvents"],
    and the statement gives ["legalEVents"]. *)
Lemma parse_label_rest_counterexample :
  let raw := "Legal EVents" in
  Bs4.string Samples.legal_events = Some raw
  /\ forallb starts_alnum (PyStr.split (PyStr.strip raw)) = true
  /\ parse_label Samples.legal_events = "legalEvents"
  /\ label_as_specified raw = "legalEVents"
  /\ parse_label Samples.legal_events <> label_as_specified raw.
Proof. repeat split; try reflexivity. discriminate. Qed.

(** ** The abstract *)

(** The fields of an abstract are all the attributes of its element, [class]
    included, and the text. *)
Lemma parse_abstract_fields section abstract :
  Bs4.find (fun t => String.eqb (name (elem t)) "abstract") section = Some abstract ->
  parse_abstract section
  = Ok (attrs_items (elem abstract)
        ++ [("content", VStr (Bs4.get_text (elem abstract)))]).
Proof. intros H. unfold parse_abstract. by rewrite H. Qed.

(** C4 fails on the code. For an abstract whose element carries the attributes
    [lang] and [class], the fields are both attributes and the text, and the
    record of the section holds the key [class]. *)
Theorem parse_abstract_keeps_class :
  parse_abstract (mkRef Samples.abstract_section [] [])
  = Ok [("lang", VStr "EN");
        ("class", VList [VStr "abstract"]);
        ("content", VStr "A widget.")]
  /\ parse_section (mkRef Samples.abstract_section [] []) []
     = Ok [("abstract",
            VDict [("lang", VStr "EN");
                   ("class", VList [VStr "abstract"]);
                   ("content", VStr "A widget.")])]
  /\ PyDict.mem "class"
       (PyDict.of_fields [("lang", VStr "EN");
                          ("class", VList [VStr "abstract"]);
                          ("content", VStr "A widget.")]) = true.
Proof. repeat split; reflexivity. Qed.

Section FieldsFacts.
Context {V : Type}.
Implicit Types (d l : list (string * V)) (k : string).

Lemma mem_set_mono k k' v d :
  PyDict.mem k d = true -> PyDict.mem k (PyDict.set k' v d) = true.
Proof.
  unfold PyDict.mem. destruct (String.eqb_spec k' k) as [->|Hne].
  - by rewrite get_set_eq.
  - by rewrite get_set_ne.
Qed.

Lemma mem_fold_mono l : forall d k,
  PyDict.mem k d = true ->
  PyDict.mem k (fold_left (fun d kv => PyDict.set (fst kv) (snd kv) d) l d) = true.
Proof.
  induction l as [|[k0 v0] l IH]; intros d k Hd; simpl; [done|].
  apply IH. by apply mem_set_mono.
Qed.

(** A key of one of the fields is a key of the dictionary. *)
Lemma mem_of_fields l l' k :
  PyDict.mem k l = true -> PyDict.mem k (PyDict.of_fields (l ++ l')) = true.
Proof.
  unfold PyDict.of_fields. generalize (@nil (string * V)) as d.
  induction l as [|[k0 v0] l IH]; intros d Hl; [done|].
  simpl. unfold PyDict.mem in Hl. simpl in Hl.
  destruct (String.eqb_spec k0 k) as [->|Hne].
  - apply mem_fold_mono, mem_set.
  - by apply IH.
Qed.
End FieldsFacts.

(** Whatever the abstract, a [class] attribute of its element is a key of the
    record. *)
Lemma parse_abstract_class section abstract :
  Bs4.find (fun t => String.eqb (name (elem t)) "abstract") section = Some abstract ->
  Bs4.has_attr "class" (elem abstract) = true ->
  exists fields,
    parse_abstract section = Ok fields
    /\ PyDict.mem "class" (PyDict.of_fields fields) = true.
Proof.
  intros Hfind Hclass. eexists. split; [by apply parse_abstract_fields|].
  apply mem_of_fields. revert Hclass.
  unfold Bs4.has_attr, PyDict.mem, attrs_items.
  induction (attrs (elem abstract)) as [|[k a] l IH]; simpl; [done|].
  by destruct (String.eqb k "class").
Qed.

(** The description of the same shape drops the [class] attribute. *)
Example parse_description_drops_class :
  forall fields,
    parse_description (mkRef Samples.description_section [] []) = Ok fields ->
    PyDict.mem "class" (PyDict.of_fields fields) = false
    /\ PyDict.get "lang" (PyDict.of_fields fields) = Some (VStr "EN").
Proof. intros fields [= <-]. split; reflexivity. Qed.

(** ** Two runs on the same text *)

(** C9 fails on the code. [page] and [page_again] are the trees of two runs
    on the same text; the first run leaves the identities of the elements it
    walked in [hack], and the second run passes over the element whose
    identity is among them: its record lacks the field [title]. *)
Theorem parse_twice_differs :
  let hack1 : gset nat := {[4]} ∪ ({[3]} ∪ ({[2]} ∪ ∅)) in
  markup Samples.page = markup Samples.page_again
  /\ parse Samples.page ∅
     = Done ([("name", VStr "Alice"); ("title", VStr "A widget")], hack1)
  /\ parse Samples.page_again hack1
     = Done ([("name", VStr "Alice")], {[13]} ∪ ({[12]} ∪ hack1))
  /\ [("name", VStr "Alice"); ("title", VStr "A widget")]
     <> ([("name", VStr "Alice")] : Node).
Proof.
  repeat split; try (vm_compute; reflexivity). discriminate.
Qed.

(** Run again on the very same objects, [parse] walks nothing. *)
Example parse_same_objects_twice :
  forall data hack,
    parse Samples.page ∅ = Done (data, hack) ->
    parse Samples.page hack = Done ([], hack).
Proof. intros data hack. vm_compute. intros [= <- <-]. reflexivity. Qed.

(** ** The parts of a description *)

Lemma get_of_fields_last {V : Type} (fields : list (string * V)) k v :
  PyDict.get k (PyDict.of_fields (fields ++ [(k, v)])) = Some v.
Proof.
  unfold PyDict.of_fields. rewrite fold_left_app. simpl. apply get_set_eq.
Qed.








(** ** The claims *)

Lemma filter_filter_seen (seen : gset nat) (i : nat) (l : list Tag) :
  List.filter (fun b => negb (bool_decide (ident b ∈ seen)))
    (List.filter (fun b => negb (Nat.eqb (ident b) i)) l)
  = List.filter (fun b => negb (bool_decide (ident b ∈ {[i]} ∪ seen))) l.
Proof.
  induction l as [|b l IH]; simpl; [done|].
  destruct (Nat.eqb_spec (ident b) i) as [Heq|Hne]; simpl.
  - rewrite (bool_decide_eq_true_2 (ident b ∈ {[i]} ∪ seen)).
    + simpl. apply IH.
    + apply elem_of_union_l. by apply elem_of_singleton.
  - destruct (bool_decide_reflect (ident b ∈ seen)) as [Hin|Hin]; simpl.
    + rewrite (bool_decide_eq_true_2 (ident b ∈ {[i]} ∪ seen)).
      * simpl. apply IH.
      * by apply elem_of_union_r.
    + rewrite (bool_decide_eq_false_2 (ident b ∈ {[i]} ∪ seen)).
      * simpl. by rewrite IH.
      * intros [Hi|Hs]%elem_of_union; [|done].
        by apply elem_of_singleton in Hi.
Qed.

(** The loop of [find_claims] keeps, of the claims of the leaves, those whose
    identity was not met before. *)
Lemma claims_of_first_seen text_tags ancestors :
  Forall2 (fun t a => nearest_claim t = Some a) text_tags ancestors ->
  forall seen,
    claims_of text_tags seen
    = Ok (List.filter (fun b => negb (bool_decide (ident b ∈ seen)))
                      (first_seen ancestors)).
Proof.
  induction 1 as [|t a text_tags ancestors Ha _ IH]; intros seen; simpl.
  - done.
  - unfold nearest_claim in Ha. rewrite Ha. simpl.
    rewrite IH, filter_filter_seen.
    destruct (bool_decide_reflect (ident a ∈ seen)) as [Hin|Hin]; simpl; done.
Qed.

Lemma filter_not_seen_empty (l : list Tag) :
  List.filter (fun b => negb (bool_decide (ident b ∈ (∅ : gset nat)))) l = l.
Proof.
  induction l as [|b l IH]; [done|].
  cbn [List.filter].
  rewrite (bool_decide_eq_false_2 (ident b ∈ (∅ : gset nat)))
    by apply not_elem_of_empty.
  cbn [negb]. by rewrite IH.
Qed.

Lemma find_claims_first_seen claims_tag ancestors :
  Forall2 (fun t a => nearest_claim t = Some a) (claim_texts claims_tag) ancestors ->
  find_claims claims_tag = Ok (first_seen ancestors).
Proof.
  intros H. unfold find_claims. fold (claim_texts claims_tag).
  rewrite (claims_of_first_seen _ _ H). by rewrite filter_not_seen_empty.
Qed.

Lemma first_seen_In l : forall c, In c (first_seen l) -> In c l.
Proof.
  induction l as [|a l IH]; intros c; simpl; [done|].
  intros [->|Hc]; [by left|].
  apply filter_In in Hc as [Hc _]. right. by apply IH.
Qed.

(** Every identity of the list is the identity of one element kept. *)
Lemma first_seen_covers l : forall a,
  In a l -> exists c, In c (first_seen l) /\ ident c = ident a.
Proof.
  induction l as [|b l IH]; intros a; simpl; [done|].
  intros [->|Ha]; [by exists a; split; [left|]|].
  destruct (IH a Ha) as (c & Hc & Hid).
  destruct (Nat.eqb_spec (ident c) (ident b)) as [Heq|Hne].
  - exists b. split; [by left|congruence].
  - exists c. split; [|done]. right. apply filter_In. split; [done|].
    by apply negb_true_iff, Nat.eqb_neq.
Qed.

Lemma NoDup_ident_filter p (l : list Tag) :
  NoDup (map ident l) -> NoDup (map ident (List.filter p l)).
Proof.
  induction l as [|a l IH]; simpl; [done|].
  intros Hnd. apply NoDup_cons in Hnd as [Ha Hnd].
  destruct (p a); simpl; [|auto].
  apply NoDup_cons. split; [|auto].
  intros Hin. apply Ha.
  apply list_elem_of_In, in_map_iff in Hin as (b & Hb & Hin).
  apply filter_In in Hin as [Hin _].
  apply list_elem_of_In, in_map_iff. eauto.
Qed.

(** No identity is kept twice. *)
Lemma first_seen_NoDup l : NoDup (map ident (first_seen l)).
Proof.
  induction l as [|a l IH]; simpl; [constructor|].
  apply NoDup_cons. split; [|by apply NoDup_ident_filter].
  intros Hin. apply list_elem_of_In, in_map_iff in Hin as (b & Hb & Hin).
  apply filter_In in Hin as [_ Hne].
  apply negb_true_iff, Nat.eqb_neq in Hne. done.
Qed.

(** As many elements are kept as there are identities. *)
Lemma first_seen_length l :
  length (first_seen l) = size (list_to_set (map ident l) : gset nat).
Proof.
  rewrite <- (length_map ident), <- (size_list_to_set (C := gset nat))
    by apply first_seen_NoDup.
  f_equal. apply set_eq. intros i. rewrite !elem_of_list_to_set.
  rewrite !list_elem_of_In, !in_map_iff. split.
  - intros (c & <- & Hc). exists c. split; [done|]. by apply first_seen_In.
  - intros (a & <- & Ha). destruct (first_seen_covers l a Ha) as (c & Hc & Hid).
    by exists c.
Qed.

Lemma get_text_field claim :
  PyDict.get "text" (PyDict.of_fields (parse_claim claim))
  = Some (VStr (Bs4.get_text claim)).
Proof. apply get_of_fields_last. Qed.

(** C6. For a claims section in which every leaf with the class [claim-text]
    has a parent with the class [claim], [ancestors] being the nearest such
    parents of the leaves in document order: the field [claims] has one entry
    for each identity among [ancestors], no identity twice, in the order in
    which the identities come first, however deep the leaves are; the field
    [text] of an entry is the whole text of its claim. *)
Theorem claims_deduplicated section claims_tag ancestors :
  Bs4.find (fun t => has_class (elem t) "claims") section = Some claims_tag ->
  Forall2 (fun t a => nearest_claim t = Some a) (claim_texts claims_tag) ancestors ->
  exists fields,
    parse_claims section = Ok fields
    /\ PyDict.get "claims" (PyDict.of_fields fields)
       = Some (VList (map claim_entry (first_seen ancestors)))
    /\ NoDup (map ident (first_seen ancestors))
    /\ length (first_seen ancestors)
       = size (list_to_set (map ident ancestors) : gset nat)
    /\ (forall a, In a ancestors ->
          exists c, In c (first_seen ancestors) /\ ident c = ident a)
    /\ (forall c, In c (first_seen ancestors) -> In c ancestors)
    /\ (forall c, PyDict.get "text" (PyDict.of_fields (parse_claim c))
                  = Some (VStr (Bs4.get_text c))).
Proof.
  intros Hfind Hanc.
  exists (attrs_except_class (elem claims_tag)
          ++ [("claims", VList (map claim_entry (first_seen ancestors)))]).
  split; [|split; [|split; [|split; [|split; [|split]]]]].
  - unfold parse_claims. rewrite Hfind. simpl.
    by rewrite (find_claims_first_seen _ _ Hanc).
  - apply get_of_fields_last.
  - apply first_seen_NoDup.
  - apply first_seen_length.
  - apply first_seen_covers.
  - apply first_seen_In.
  - apply get_text_field.
Qed.

(** C6 on two claims, one with two leaves at depth 2 and one with a leaf at
    depth 4. *)
Lemma claims_deduplicated_witness :
  exists fields,
    parse_claims (mkRef Samples.claims_section [] []) = Ok fields
    /\ PyDict.get "claims" (PyDict.of_fields fields)
       = Some (VList
           [VDict [("num", VStr "00001");
                   ("text", VStr "1. A widgetwith a handle.")];
            VDict [("num", VStr "00002");
                   ("text", VStr "2. The widget of claim 1.")]]).
Proof.
  destruct (claims_deduplicated
              (mkRef Samples.claims_section [] [])
              (mkRef Samples.claims_div [] [Samples.claims_section])
              [Samples.claim1; Samples.claim1; Samples.claim2]
              eq_refl)
    as (fields & Hparse & Hget & _).
  - repeat constructor.
  - exists fields. split; [exact Hparse|exact Hget].
Defined.

(** ** A run on elements that are not in [hack] *)

Lemma refs_reach ps l r :
  inr r ∈ Bs4.refs ps l -> forall i, i ∈ reach r -> i ∈ idents_list l.
Proof.
  induction l as [|[s|t] l IH]; simpl; intros Hin i Hi.
  - inversion Hin.
  - apply elem_of_cons in Hin as [Heq|Hin]; [discriminate|]. by apply IH.
  - unfold idents_list. simpl. apply elem_of_app.
    apply elem_of_cons in Hin as [Heq|Hin].
    + inversion Heq; subst. unfold reach in Hi. simpl in Hi.
      by apply elem_of_app in Hi.
    + right. by apply IH.
Qed.

Lemma idents_unfold t : idents t = ident t :: idents_list (contents t).
Proof. by destruct t. Qed.

Lemma children_reach tag r :
  inr r ∈ Bs4.children tag -> forall i, i ∈ reach r -> i ∈ reach tag.
Proof.
  intros Hin i Hi. unfold reach. rewrite idents_unfold.
  apply elem_of_app. left. right. by apply (refs_reach _ _ _ Hin).
Qed.

Lemma siblings_reach tag r :
  inr r ∈ Bs4.next_sibling_refs tag -> forall i, i ∈ reach r -> i ∈ reach tag.
Proof.
  intros Hin i Hi. unfold reach.
  apply elem_of_app. right. by apply (refs_reach _ _ _ Hin).
Qed.

Section Frame.
Variable F : TagRef -> Node -> M Node.

Lemma walk_children_framed l (extra : gset nat) :
  (forall r, inr r ∈ l -> framed F r) ->
  (forall r, inr r ∈ l -> forall i, i ∈ reach r -> i ∉ extra) ->
  forall c h, walk_children F l c (h ∪ extra) = frame extra (walk_children F l c h).
Proof.
  induction l as [|[s|r] l IH]; intros HF Hl c h; simpl.
  - done.
  - apply IH; intros r Hr; [apply HF|apply Hl]; by right.
  - unfold bind. rewrite (HF r) by (try apply Hl; left).
    destruct (F r c h) as [[c' h']| |]; simpl; try done.
    apply IH; intros r' Hr'; [apply HF|apply Hl]; by right.
Qed.

Lemma walk_siblings_framed l (extra : gset nat) :
  (forall r, inr r ∈ l -> framed F r) ->
  (forall r, inr r ∈ l -> forall i, i ∈ reach r -> i ∉ extra) ->
  forall c h, walk_siblings F l c (h ∪ extra) = frame extra (walk_siblings F l c h).
Proof.
  induction l as [|[s|r] l IH]; intros HF Hl c h; simpl.
  - done.
  - apply IH; intros r Hr; [apply HF|apply Hl]; by right.
  - destruct (is_start (elem r)); [done|].
    unfold bind. rewrite (HF r) by (try apply Hl; left).
    destruct (F r c h) as [[c' h']| |]; simpl; try done.
    apply IH; intros r' Hr'; [apply HF|apply Hl]; by right.
Qed.

Lemma append_value_framed p v c h (extra : gset nat) :
  append_value p v c (h ∪ extra) = frame extra (append_value p v c h).
Proof. unfold append_value, ret, raise. by repeat case_match. Qed.

Lemma parse_tag_body_framed tag :
  (forall r, weight r < weight tag -> framed F r) ->
  framed (parse_tag_body F) tag.
Proof.
  intros HF c h extra Hex.
  assert (ident (elem tag) ∉ extra) as Hid.
  { apply Hex. unfold reach. rewrite idents_unfold. apply elem_of_app. left. left. }
  unfold parse_tag_body, bind, visited, mark.
  rewrite (bool_decide_ext (ident (elem tag) ∈ h ∪ extra) (ident (elem tag) ∈ h)).
  2: { rewrite elem_of_union. tauto. }
  destruct (bool_decide _); [done|].
  rewrite (assoc_L (∪)).
  set (h1 := {[ident (elem tag)]} ∪ h).
  assert (forall c, walk_children F (Bs4.children tag) c (h1 ∪ extra)
                    = frame extra (walk_children F (Bs4.children tag) c h1)) as Hc.
  { intros c0. apply walk_children_framed.
    - intros r Hr. apply HF. by apply children_weight.
    - intros r Hr i Hi. apply Hex. by apply (children_reach tag r). }
  destruct (is_start (elem tag)).
  { unfold parse_siblings. rewrite walk_siblings_framed.
    - by destruct (walk_siblings _ _ _ h1) as [[c' h']| |].
    - intros r Hr. apply HF. by apply siblings_weight.
    - intros r Hr i Hi. apply Hex. by apply (siblings_reach tag r). }
  destruct (negb _); [apply Hc|].
  destruct (Bs4.get "itemprop" (elem tag)) as [[p|]|]; try done.
  destruct (String.eqb _ _); [done|].
  assert (property_value F p tag (h1 ∪ extra)
          = frame extra (property_value F p tag h1)) as ->.
  { unfold property_value, parse_children, bind.
    destruct (Bs4.has_attr "itemscope" (elem tag)).
    - rewrite Hc. by destruct (walk_children _ _ _ h1) as [[c' h']| |].
    - unfold ret. by repeat case_match. }
  destruct (property_value F p tag h1) as [[v h2]| |]; simpl; try done.
  destruct (Bs4.has_attr "repeat" _); [apply append_value_framed|done].
Qed.
End Frame.

Lemma parse_tag_fuel_framed f : forall tag, framed (parse_tag_fuel f) tag.
Proof.
  induction f as [|f IH]; intros tag; [done|].
  simpl. apply parse_tag_body_framed. intros r _. apply IH.
Qed.

Lemma parse_tag_framed tag : framed parse_tag tag.
Proof. intros c h extra Hex. by apply parse_tag_fuel_framed. Qed.

Lemma elem_size c cs : Element c ∈ cs -> tag_size c <= size_list cs.
Proof.
  induction cs as [|e cs IH]; intros Hin; [inversion Hin|].
  rewrite size_list_cons.
  apply elem_of_cons in Hin as [<-|Hin]; simpl; [lia|].
  specialize (IH Hin). lia.
Qed.

(** Induction on a tree, with the hypothesis for every child element. *)
Lemma Tag_children_ind (P : Tag -> Prop) :
  (forall t, (forall c, Element c ∈ contents t -> P c) -> P t) ->
  forall t, P t.
Proof.
  intros Hstep t.
  assert (forall n t, tag_size t < n -> P t) as H.
  { induction n as [|n IH]; intros t' Hn; [lia|].
    apply Hstep. intros c Hc. apply IH.
    apply elem_size in Hc. rewrite size_unfold in Hn. lia. }
  apply (H (S (tag_size t))). lia.
Qed.

(** What can be met from an element below [t] is in [t]. *)
Lemma descendants_reach t : forall ps r,
  r ∈ Bs4.descendants_of ps t -> forall i, i ∈ reach r -> i ∈ idents t.
Proof.
  induction t as [t IH] using Tag_children_ind. intros ps r Hr i Hi.
  rewrite idents_unfold. right.
  destruct t as [i0 n a cs]. simpl in *.
  revert Hr. generalize (mkTag i0 n a cs :: ps) as ps'. intros ps'.
  induction cs as [|[s|c] cs IHcs]; intros Hr.
  - inversion Hr.
  - apply IHcs; [|done]. intros c Hc. apply IH. by right.
  - unfold idents_list. simpl. apply elem_of_app.
    apply elem_of_cons in Hr as [->|Hr].
    + unfold reach in Hi. simpl in Hi. by apply elem_of_app in Hi.
    + apply elem_of_app in Hr as [Hr|Hr].
      * left. apply (IH c ltac:(left) ps' r Hr i Hi).
      * right. apply IHcs; [|done]. intros c' Hc'. apply IH. by right.
Qed.

Lemma find_descendant p tag r :
  Bs4.find p tag = Some r -> r ∈ Bs4.descendants_of (parents tag) (elem tag).
Proof.
  unfold Bs4.find, Bs4.find_all. intros H.
  apply head_Some_elem_of in H.
  apply list_elem_of_In, filter_In in H as [H _]. by apply list_elem_of_In.
Qed.

(** X12. When no identity of the tree is in [hack], [parse] returns the record
    it returns when [hack] is empty, and adds to [hack] what it adds to the
    empty set. *)
Theorem parse_fresh soup (hack : gset nat) :
  (forall i, i ∈ idents soup -> i ∉ hack) ->
  parse soup hack = frame hack (parse soup ∅).
Proof.
  intros Hfresh. unfold parse.
  destruct (Bs4.find _ (mkRef soup [] [])) as [root|] eqn:Hroot; [|done].
  destruct (Bs4.find _ root) as [article|] eqn:Hart; [|done].
  unfold bind.
  rewrite <- (union_empty_l_L hack) at 1.
  rewrite parse_tag_framed.
  - destruct (parse_tag article [] ∅) as [[c h]| |]; simpl; try done.
    unfold lift. by destruct (parse_sections article c).
  - intros i Hi. apply Hfresh.
    apply find_descendant in Hroot, Hart. simpl in Hroot.
    apply (descendants_reach soup [] root Hroot).
    unfold reach. apply elem_of_app. left.
    apply (descendants_reach _ _ article Hart i Hi).
Qed.

(** ** A whole document *)

Example parse_patent :
  exists hack,
    parse Samples.patent ∅
    = Done ([("inventor", VDict [("name", VList [VStr "Alice"; VStr "Bob"])]);
             ("legalEvents", VDict [("title", VStr "A widget")]);
             ("abstract",
              VDict [("lang", VStr "EN");
                     ("class", VList [VStr "abstract"]);
                     ("content", VStr "A widget.")])], hack).
Proof. eexists. vm_compute. reflexivity. Qed.

(** * More properties of the code *)

(** ** The label: the words that count, and its shape *)

Lemma label_parts_retained words : forall i parts,
  i <> 0 ->
  label_parts i words parts = parts ++ map PyStr.capitalize (retained words).
Proof.
  induction words as [|w words IH]; intros i parts Hi; simpl.
  - by rewrite app_nil_r.
  - destruct w as [|c w]; simpl; [by rewrite app_nil_r|].
    destruct (PyStr.isalnum c); simpl; [|by rewrite app_nil_r].
    destruct i; [done|]. simpl.
    rewrite IH by done. by rewrite <- app_assoc.
Qed.

(** X1. The label of a header with a string is made of the words of the
    string up to the first word that does not start with an alphanumeric
    character: the first of them in lower case, the others capitalized; the
    word that stops the scan and all the words after it are dropped. *)
Theorem parse_label_retained tag raw :
  Bs4.string tag = Some raw ->
  parse_label tag =
  match retained (PyStr.split (PyStr.strip raw)) with
  | [] => EmptyString
  | w :: rest => PyStr.join (PyStr.lower w :: map PyStr.capitalize rest)
  end.
Proof.
  intros Hraw. unfold parse_label, label_of. rewrite Hraw.
  destruct (PyStr.split (PyStr.strip raw)) as [|w rest]; [done|].
  simpl. destruct w as [|c w]; [done|]. simpl.
  destruct (PyStr.isalnum c); simpl; [|done].
  by rewrite label_parts_retained.
Qed.

(** X1 on the header [priority]: the words from [(2001)] on are dropped. *)
Lemma parse_label_retained_witness :
  parse_label Samples.priority = "priorityDate".
Proof.
  refine (parse_label_retained Samples.priority
            "  Priority DATE (2001) year " _).
  reflexivity.
Defined.

Lemma lstrip_split s : PyStr.split (PyStr.lstrip s) = PyStr.split s.
Proof.
  unfold PyStr.split. induction s as [|c s IH]; simpl; [done|].
  destruct (PyStr.isspace c) eqn:E; [done|]. simpl. by rewrite E.
Qed.

Lemma rstrip_split_from s : forall w,
  PyStr.split_from w (PyStr.rstrip s) = PyStr.split_from w s.
Proof.
  induction s as [|c s IH]; intros w; [done|].
  simpl. destruct (PyStr.rstrip s) as [|c' r] eqn:Er.
  - destruct (PyStr.isspace c) eqn:E.
    + rewrite <- !IH. simpl. by destruct w.
    + simpl. rewrite E. by rewrite <- IH.
  - simpl. destruct (PyStr.isspace c); [|by rewrite <- IH].
    destruct w; by rewrite <- IH.
Qed.

(** X2. The blanks around the string of a header make no difference: the
    call of [strip] in [parse_label] changes nothing, since [split] drops
    them in any case. *)
Theorem parse_label_strip raw :
  PyStr.split (PyStr.strip raw) = PyStr.split raw
  /\ label_of (PyStr.strip raw) = label_of raw
  /\ label_of raw = PyStr.join (label_parts 0 (PyStr.split raw) []).
Proof.
  assert (forall s, PyStr.split (PyStr.strip s) = PyStr.split s) as H.
  { intros s. unfold PyStr.strip, PyStr.split at 1.
    rewrite rstrip_split_from. apply lstrip_split. }
  split; [apply H|]. unfold label_of. by rewrite !H.
Qed.

Lemma lower_char_space c : PyStr.isspace (PyStr.lower_char c) = PyStr.isspace c.
Proof. destruct c as [[] [] [] [] [] [] [] []]; reflexivity. Qed.

Lemma upper_char_space c : PyStr.isspace (PyStr.upper_char c) = PyStr.isspace c.
Proof. destruct c as [[] [] [] [] [] [] [] []]; reflexivity. Qed.

Lemma lower_char_alnum c :
  PyStr.isalnum c = true ->
  PyStr.islower (PyStr.lower_char c) || PyStr.isdigit (PyStr.lower_char c) = true.
Proof.
  destruct c as [[] [] [] [] [] [] [] []]; intros H;
    first [reflexivity | discriminate H].
Qed.

Lemma all_chars_app p s t :
  all_chars p (String.append s t) = all_chars p s && all_chars p t.
Proof.
  induction s as [|c s IH]; simpl; [done|]. rewrite IH. by rewrite andb_assoc.
Qed.

Lemma lower_no_space w :
  all_chars (fun c => negb (PyStr.isspace c)) (PyStr.lower w)
  = all_chars (fun c => negb (PyStr.isspace c)) w.
Proof.
  induction w as [|c w IH]; simpl; [done|]. by rewrite lower_char_space, IH.
Qed.

Lemma capitalize_no_space w :
  all_chars (fun c => negb (PyStr.isspace c)) (PyStr.capitalize w)
  = all_chars (fun c => negb (PyStr.isspace c)) w.
Proof.
  destruct w as [|c w]; simpl; [done|].
  by rewrite upper_char_space, lower_no_space.
Qed.

(** A word of [split] has no blank in it. *)
Lemma split_from_no_space s : forall w,
  all_chars (fun c => negb (PyStr.isspace c)) w = true ->
  Forall (fun word => all_chars (fun c => negb (PyStr.isspace c)) word = true)
         (PyStr.split_from w s).
Proof.
  induction s as [|c s IH]; intros w Hw; simpl.
  - destruct w; repeat constructor. done.
  - destruct (PyStr.isspace c) eqn:E.
    + destruct w; [by apply IH|]. constructor; [done|by apply IH].
    + apply IH. rewrite all_chars_app, Hw. simpl. by rewrite E.
Qed.

Lemma label_parts_no_space words : forall i parts,
  Forall (fun word => all_chars (fun c => negb (PyStr.isspace c)) word = true) words ->
  Forall (fun word => all_chars (fun c => negb (PyStr.isspace c)) word = true) parts ->
  Forall (fun word => all_chars (fun c => negb (PyStr.isspace c)) word = true)
         (label_parts i words parts).
Proof.
  induction words as [|w words IH]; intros i parts Hw Hp; simpl; [done|].
  apply Forall_cons in Hw as [Hw Hws].
  destruct w as [|c w]; [done|].
  destruct (PyStr.isalnum c); cbn [negb]; [|done].
  destruct (Nat.eqb i 0); apply IH; try done;
    (apply Forall_app; split; [done|]); (constructor; [|constructor]).
  - by rewrite lower_no_space.
  - by rewrite capitalize_no_space.
Qed.

Lemma join_no_space parts :
  Forall (fun word => all_chars (fun c => negb (PyStr.isspace c)) word = true) parts ->
  all_chars (fun c => negb (PyStr.isspace c)) (PyStr.join parts) = true.
Proof.
  induction 1 as [|w parts Hw _ IH]; simpl; [done|].
  by rewrite all_chars_app, Hw, IH.
Qed.

(** X3. Whatever the header, its label holds no blank; and when the string
    of the header is made of characters below 128 only, the label is empty or
    begins with a lower case letter or a digit. *)
Theorem parse_label_shape tag :
  all_chars (fun c => negb (PyStr.isspace c)) (parse_label tag) = true
  /\ forall raw,
       Bs4.string tag = Some raw ->
       all_chars is_ascii raw = true ->
       starts_with (fun c => PyStr.islower c || PyStr.isdigit c) (parse_label tag)
       = true.
Proof.
  split.
  - unfold parse_label. destruct (Bs4.string tag) as [raw|]; [|done].
    unfold label_of. apply join_no_space, label_parts_no_space; [|constructor].
    by apply split_from_no_space.
  - intros raw Hraw _. unfold parse_label. rewrite Hraw. unfold label_of.
    destruct (PyStr.split (PyStr.strip raw)) as [|w rest]; [done|].
    simpl. destruct w as [|c w]; [done|]. simpl.
    destruct (PyStr.isalnum c) eqn:E; [|done].
    simpl. rewrite label_parts_retained by done.
    simpl. by apply lower_char_alnum.
Qed.

(** X3 on the header [priority]. *)
Lemma parse_label_shape_witness :
  starts_with (fun c => PyStr.islower c || PyStr.isdigit c)
              (parse_label Samples.priority) = true.
Proof.
  refine (proj2 (parse_label_shape Samples.priority)
                "  Priority DATE (2001) year " _ _).
  - reflexivity.
  - reflexivity.
Defined.

(** ** The walker: one element *)

(** X4. Once a call of [parse_tag] on an element has returned, a further call
    on the same element changes neither the record it is given nor [hack]. *)
Theorem parse_tag_twice tag c h c' h' :
  parse_tag tag c h = Done (c', h') ->
  forall c2, parse_tag tag c2 h' = Done (c2, h').
Proof.
  intros H c2. apply parse_tag_marks in H as [_ Hid].
  by apply parse_tag_visited.
Qed.

(** X4 on the header [inventor] followed by [alice]. *)
Lemma parse_tag_twice_witness :
  parse_tag (mkRef Samples.inventor [Element Samples.alice] [])
            [("date", VStr "2001")] ({[5]} ∪ ({[4]} ∪ ∅))
  = Done ([("date", VStr "2001")], {[5]} ∪ ({[4]} ∪ ∅)).
Proof.
  refine (parse_tag_twice (mkRef Samples.inventor [Element Samples.alice] [])
            [] ∅ [("inventor", VDict [("name", VList [VStr "Alice"])])]
            ({[5]} ∪ ({[4]} ∪ ∅)) _ [("date", VStr "2001")]).
  vm_compute. reflexivity.
Defined.

(** What [parse_tag] does with a plain property that is not in [hack]. *)
Lemma parse_tag_plain tag p c h :
  ident (elem tag) ∉ h ->
  plain p (elem tag) ->
  parse_tag tag c h =
  (value <- property_value parse_tag p tag ;; ret (PyDict.set p value c))
    ({[ident (elem tag)]} ∪ h).
Proof.
  intros Hf (Hs & Hp & Hne & Hsec & Hrep).
  rewrite parse_tag_fresh by done.
  rewrite Hs, Hp, Hsec. simpl.
  destruct p; [by destruct Hne|]. simpl. unfold bind. by rewrite Hrep.
Qed.

(** X5. A property without accumulation marker binds its name to its value
    whatever the record held under this name, a list included, and leaves
    every other key as it was. *)
Theorem plain_overwrites tag p c h value h1 :
  plain p (elem tag) ->
  ident (elem tag) ∉ h ->
  property_value parse_tag p tag ({[ident (elem tag)]} ∪ h) = Done (value, h1) ->
  exists node,
    parse_tag tag c h = Done (node, h1)
    /\ PyDict.get p node = Some value
    /\ forall k, k <> p -> PyDict.get k node = PyDict.get k c.
Proof.
  intros Hp Hf Hv. exists (PyDict.set p value c).
  rewrite (parse_tag_plain tag p) by done. unfold bind. rewrite Hv.
  split; [done|]. split; [apply get_set_eq|].
  intros k Hk. by apply get_set_ne.
Qed.

(** X5 on a record that binds [title] to a list. *)
Lemma plain_overwrites_witness :
  exists node,
    parse_tag (mkRef Samples.title [] [])
              [("title", VList [VStr "old"]); ("date", VStr "2001")] ∅
    = Done (node, {[8]} ∪ ∅)
    /\ PyDict.get "title" node = Some (VStr "A widget")
    /\ forall k, k <> "title" ->
         PyDict.get k node
         = PyDict.get k [("title", VList [VStr "old"]); ("date", VStr "2001")].
Proof.
  refine (plain_overwrites (mkRef Samples.title [] []) "title"
            [("title", VList [VStr "old"]); ("date", VStr "2001")] ∅
            (VStr "A widget") ({[8]} ∪ ∅) _ _ _).
  - repeat split; done.
  - compute_done.
  - vm_compute. reflexivity.
Defined.

(** X6. An accumulating property whose name is bound to a list appends its
    value at the end of the list; the values that were there stay, in their
    order, and every other key is left as it was. *)
Theorem accumulating_appends tag p c h l value h1 :
  accumulating p (elem tag) ->
  ident (elem tag) ∉ h ->
  PyDict.get p c = Some (VList l) ->
  property_value parse_tag p tag ({[ident (elem tag)]} ∪ h) = Done (value, h1) ->
  exists node,
    parse_tag tag c h = Done (node, h1)
    /\ PyDict.get p node = Some (VList (l ++ [value]))
    /\ forall k, k <> p -> PyDict.get k node = PyDict.get k c.
Proof.
  intros Ha Hf Hl Hv. exists (PyDict.set p (VList (l ++ [value])) c).
  rewrite (parse_tag_accumulating tag p) by done. unfold bind. rewrite Hv.
  unfold append_value. rewrite (mem_get_some _ _ _ Hl), Hl.
  split; [done|]. split; [apply get_set_eq|].
  intros k Hk. by apply get_set_ne.
Qed.

(** X6 on a record that holds two names already. *)
Lemma accumulating_appends_witness :
  exists node,
    parse_tag (mkRef Samples.dave [] []) Samples.two_names ∅
    = Done (node, {[71]} ∪ ∅)
    /\ PyDict.get "name" node
       = Some (VList ([VStr "Alice"; VStr "Bob"] ++ [VStr "Dave"]))
    /\ forall k, k <> "name" ->
         PyDict.get k node = PyDict.get k Samples.two_names.
Proof.
  refine (accumulating_appends (mkRef Samples.dave [] []) "name"
            Samples.two_names ∅ [VStr "Alice"; VStr "Bob"] (VStr "Dave")
            ({[71]} ∪ ∅) _ _ _ _).
  - repeat split; done.
  - compute_done.
  - reflexivity.
  - vm_compute. reflexivity.
Defined.

(** X7. The walker passes over an element named [section] that has a
    property name: the record is left as it is, and nothing below the section
    is walked, so that only the identity of the section itself goes to
    [hack]. *)
Theorem walker_skips_section tag p c h :
  String.eqb (name (elem tag)) "section" = true ->
  Bs4.get "itemprop" (elem tag) = Some (AStr p) ->
  p <> "" ->
  ident (elem tag) ∉ h ->
  parse_tag tag c h = Done (c, {[ident (elem tag)]} ∪ h).
Proof.
  intros Hsec Hp Hne Hf. rewrite parse_tag_fresh by done.
  apply String.eqb_eq in Hsec as Hname.
  unfold is_start. rewrite Hname, Hp. simpl.
  by destruct p; [destruct Hne|].
Qed.

(** X7 on a section whose child carries a property name. *)
Lemma walker_skips_section_witness :
  parse_tag (mkRef Samples.skipped_section [] []) [("date", VStr "2001")] ∅
  = Done ([("date", VStr "2001")], {[72]} ∪ ∅).
Proof.
  refine (walker_skips_section (mkRef Samples.skipped_section [] []) "claims"
            [("date", VStr "2001")] ∅ _ _ _ _).
  - reflexivity.
  - reflexivity.
  - discriminate.
  - compute_done.
Defined.

(** ** The value of a property: the other cases *)

(** X8. For an element without [itemscope], [property_value] returns [None]
    exactly when the attributes [content], [href] and [src] are absent or
    empty, the property name is not [content], and the element has no
    string; it never raises and leaves [hack] alone. *)
Theorem property_value_none walk p tag h :
  Bs4.has_attr "itemscope" (elem tag) = false ->
  (exists value, property_value walk p tag h = Done (value, h))
  /\ (property_value walk p tag h = Done (VNone, h) <->
      Bs4.truthy (Bs4.get "content" (elem tag)) = false
      /\ Bs4.truthy (Bs4.get "href" (elem tag)) = false
      /\ Bs4.truthy (Bs4.get "src" (elem tag)) = false
      /\ String.eqb p "content" = false
      /\ Bs4.string (elem tag) = None).
Proof.
  intros Hscope. unfold property_value. rewrite Hscope.
  assert (forall key, Bs4.truthy (Bs4.get key (elem tag)) = true ->
                      of_get (Bs4.get key (elem tag)) <> VNone) as Hattr.
  { intros key. by destruct (Bs4.get key (elem tag)) as [[]|]. }
  destruct (Bs4.truthy (Bs4.get "content" _)) eqn:Ec.
  { split; [by eexists|]. unfold ret. split.
    - intros [= H]. by apply Hattr in H.
    - by intros [? _]. }
  destruct (Bs4.truthy (Bs4.get "href" _)) eqn:Eh.
  { split; [by eexists|]. unfold ret. split.
    - intros [= H]. by apply Hattr in H.
    - by intros (_ & ? & _). }
  destruct (Bs4.truthy (Bs4.get "src" _)) eqn:Es.
  { split; [by eexists|]. unfold ret. split.
    - intros [= H]. by apply Hattr in H.
    - by intros (_ & _ & ? & _). }
  destruct (String.eqb p "content").
  { split; [by eexists|]. unfold ret. split; [done|]. by intros (_ & _ & _ & ? & _). }
  destruct (Bs4.string (elem tag)).
  - split; [by eexists|]. unfold ret. split; [done|]. by intros (_ & _ & _ & _ & ?).
  - split; [by eexists|]. done.
Qed.

(** X8 on an element with an empty [content] and two children. *)
Lemma property_value_none_witness :
  property_value parse_tag "title" (mkRef Samples.no_value [] []) ∅
  = Done (VNone, ∅).
Proof.
  apply (proj2 (property_value_none parse_tag "title"
                  (mkRef Samples.no_value [] []) ∅ eq_refl)).
  repeat split; reflexivity.
Defined.

(** X9. For an element without [itemscope] and without a [content] that
    counts, an [href] that is a string and not empty is the value, before
    [src], the property name [content] and the text; and without an [href]
    that counts, a [src] that is a string and not empty is the value, before
    the property name [content] and the text. *)
Theorem href_then_src walk p tag h :
  Bs4.has_attr "itemscope" (elem tag) = false ->
  Bs4.truthy (Bs4.get "content" (elem tag)) = false ->
  (forall href, Bs4.get "href" (elem tag) = Some (AStr href) -> href <> "" ->
     property_value walk p tag h = Done (VStr href, h))
  /\ (forall src, Bs4.truthy (Bs4.get "href" (elem tag)) = false ->
        Bs4.get "src" (elem tag) = Some (AStr src) -> src <> "" ->
        property_value walk p tag h = Done (VStr src, h)).
Proof.
  intros Hscope Hc. unfold property_value. rewrite Hscope, Hc. split.
  - intros href -> Hne. simpl. by destruct href; [destruct Hne|].
  - intros src -> -> Hne. simpl. by destruct src; [destruct Hne|].
Qed.

(** X9 on a link with [href] and [src], then on an image with [src] only. *)
Lemma href_then_src_witness :
  property_value parse_tag "content" (mkRef Samples.with_href [] []) ∅
    = Done (VStr "/patent/X", ∅)
  /\ property_value parse_tag "content" (mkRef Samples.with_src [] []) ∅
     = Done (VStr "x.png", ∅).
Proof.
  split.
  - refine (proj1 (href_then_src parse_tag "content"
                     (mkRef Samples.with_href [] []) ∅ eq_refl eq_refl)
                  "/patent/X" eq_refl _). discriminate.
  - refine (proj2 (href_then_src parse_tag "content"
                     (mkRef Samples.with_src [] []) ∅ eq_refl eq_refl)
                  "x.png" eq_refl eq_refl _). discriminate.
Defined.

(** ** The walker: nesting, and what it leaves in [hack] *)



Lemma subseteq_union_trans (a b c ids : gset nat) :
  b ⊆ a ∪ ids -> c ⊆ b ∪ ids -> c ⊆ a ∪ ids.
Proof.
  intros Hb Hc x Hx. apply Hc, elem_of_union in Hx as [Hx|Hx].
  - by apply Hb.
  - by apply elem_of_union_r.
Qed.

Lemma subseteq_union_mono (a c ids ids' : gset nat) :
  ids ⊆ ids' -> c ⊆ a ∪ ids -> c ⊆ a ∪ ids'.
Proof.
  intros Hi Hc x Hx. apply Hc, elem_of_union in Hx as [Hx|Hx].
  - by apply elem_of_union_l.
  - by apply elem_of_union_r, Hi.
Qed.

Section Bound.
Variable F : TagRef -> Node -> M Node.

Lemma walk_children_bounded (ids : gset nat) l :
  (forall r, inr r ∈ l -> forall c h, bounded ids h (F r c h)) ->
  forall c h, bounded ids h (walk_children F l c h).
Proof.
  induction l as [|[s|r] l IHl]; intros Hl c h; simpl.
  - apply union_subseteq_l.
  - apply IHl. intros r Hr. apply Hl. by right.
  - unfold bind. pose proof (Hl r ltac:(left) c h) as Hr.
    destruct (F r c h) as [[c' h1]| |]; try done.
    assert (bounded ids h1 (walk_children F l c' h1)) as Hb.
    { apply IHl. intros r' Hr'. apply Hl. by right. }
    simpl in Hr. destruct (walk_children F l c' h1) as [[c2 h2]| |]; try done.
    simpl in *. by apply (subseteq_union_trans h h1).
Qed.

Lemma walk_siblings_bounded (ids : gset nat) l :
  (forall r, inr r ∈ l -> forall c h, bounded ids h (F r c h)) ->
  forall c h, bounded ids h (walk_siblings F l c h).
Proof.
  induction l as [|[s|r] l IHl]; intros Hl c h; simpl.
  - apply union_subseteq_l.
  - apply IHl. intros r Hr. apply Hl. by right.
  - destruct (is_start (elem r)); [simpl; apply union_subseteq_l|].
    unfold bind. pose proof (Hl r ltac:(left) c h) as Hr.
    destruct (F r c h) as [[c' h1]| |]; try done.
    assert (bounded ids h1 (walk_siblings F l c' h1)) as Hb.
    { apply IHl. intros r' Hr'. apply Hl. by right. }
    simpl in Hr. destruct (walk_siblings F l c' h1) as [[c2 h2]| |]; try done.
    simpl in *. by apply (subseteq_union_trans h h1).
Qed.

Lemma bounded_mono {A : Type} (ids ids' h : gset nat) (out : outcome (A * gset nat)) :
  ids ⊆ ids' -> bounded ids h out -> bounded ids' h out.
Proof.
  destruct out as [[a h']| |]; simpl; try done. apply subseteq_union_mono.
Qed.

Lemma parse_tag_body_bounded tag :
  (forall r, weight r < weight tag ->
     forall c h, bounded (list_to_set (reach r)) h (F r c h)) ->
  forall c h, bounded (list_to_set (reach tag)) h (parse_tag_body F tag c h).
Proof.
  intros HF c h. unfold parse_tag_body, bind, visited, mark.
  destruct (bool_decide _); [simpl; apply union_subseteq_l|].
  set (ids := list_to_set (reach tag) : gset nat).
  set (h1 := {[ident (elem tag)]} ∪ h).
  assert (h1 ⊆ h ∪ ids) as Hh1.
  { subst h1 ids. intros x [Hx|Hx]%elem_of_union.
    - apply elem_of_union_r, elem_of_list_to_set.
      apply elem_of_singleton in Hx as ->.
      unfold reach. rewrite idents_unfold. apply elem_of_app. left. left.
    - by apply elem_of_union_l. }
  assert (forall c, bounded ids h1 (walk_children F (Bs4.children tag) c h1)) as Hc.
  { intros c0. apply walk_children_bounded. intros r Hr c1 h2.
    apply (bounded_mono (list_to_set (reach r))).
    - intros j Hj. apply elem_of_list_to_set.
      apply elem_of_list_to_set in Hj. by apply (children_reach tag r).
    - apply HF. by apply children_weight. }
  assert (forall (out : outcome (Node * gset nat)) (f : Node -> Node),
            bounded ids h1 out ->
            bounded ids h match out with
                        | Done (a, hack') => Done (f a, hack')
                        | Raised e => Raised e
                        | Starved => Starved
                        end) as Hret.
  { intros [[a h2]| |] f; simpl; try done. by apply subseteq_union_trans. }
  destruct (is_start (elem tag)).
  { unfold parse_siblings, ret.
    apply (Hret _ (fun a => PyDict.set (parse_label (elem tag)) (VDict a) c)).
    apply walk_siblings_bounded. intros r Hr c1 h2.
    apply (bounded_mono (list_to_set (reach r))).
    - intros j Hj. apply elem_of_list_to_set.
      apply elem_of_list_to_set in Hj. by apply (siblings_reach tag r).
    - apply HF. by apply siblings_weight. }
  destruct (negb _).
  { unfold parse_children. specialize (Hc c).
    destruct (walk_children _ _ _ _) as [[a h2]| |]; simpl in *; try done.
    by apply (subseteq_union_trans h h1). }
  destruct (Bs4.get "itemprop" (elem tag)) as [[p|]|]; try done.
  destruct (String.eqb _ _); [done|].
  assert (bounded ids h1 (property_value F p tag h1)) as Hp.
  { unfold property_value, parse_children, bind.
    destruct (Bs4.has_attr "itemscope" (elem tag)).
    - specialize (Hc []). by destruct (walk_children _ _ _ _) as [[a h2]| |].
    - unfold ret. repeat case_match; simpl; apply union_subseteq_l. }
  destruct (property_value F p tag h1) as [[v h2]| |]; try done.
  simpl in Hp. destruct (Bs4.has_attr "repeat" _).
  - destruct (append_value p v c h2) as [[a h3]| |] eqn:E; try done.
    apply append_value_state in E as ->. simpl.
    by apply (subseteq_union_trans h h1).
  - simpl. by apply (subseteq_union_trans h h1).
Qed.
End Bound.

Lemma parse_tag_fuel_bounded f : forall tag c h,
  bounded (list_to_set (reach tag)) h (parse_tag_fuel f tag c h).
Proof.
  induction f as [|f IHf]; intros tag c h; [done|].
  simpl. apply parse_tag_body_bounded. intros r _. apply IHf.
Qed.

(** X11. A call of [parse] that returns leaves in [hack] all the identities
    that were there, and adds identities of elements of the document only;
    no call ever takes an identity out of [hack]. *)
Theorem parse_hack_bounds soup hack data hack' :
  parse soup hack = Done (data, hack') ->
  hack ⊆ hack' /\ hack' ⊆ hack ∪ list_to_set (idents soup).
Proof.
  unfold parse.
  destruct (Bs4.find _ (mkRef soup [] [])) as [root|] eqn:Hroot; [|done].
  destruct (Bs4.find _ root) as [article|] eqn:Hart; [|done].
  unfold bind.
  pose proof (parse_tag_grows article [] hack) as Hg.
  pose proof (parse_tag_fuel_bounded (S (weight article)) article [] hack) as Hb.
  fold (parse_tag article [] hack) in Hb.
  destruct (parse_tag article [] hack) as [[c h1]| |]; try done.
  unfold lift. destruct (parse_sections article c); [|done].
  intros [= <- <-]. split; [done|]. simpl in Hb.
  assert (list_to_set (reach article) ⊆ (list_to_set (idents soup) : gset nat)) as Hsub.
  { intros j Hj. apply elem_of_list_to_set. apply elem_of_list_to_set in Hj.
    apply find_descendant in Hroot, Hart. simpl in Hroot.
    apply (descendants_reach soup [] root Hroot).
    unfold reach. apply elem_of_app. left.
    by apply (descendants_reach _ _ article Hart). }
  by apply (subseteq_union_mono _ _ _ _ Hsub).
Qed.

(** X11 on the first run on [page]. *)
Lemma parse_hack_bounds_witness :
  (∅ : gset nat) ⊆ {[4]} ∪ ({[3]} ∪ ({[2]} ∪ ∅))
  /\ ({[4]} ∪ ({[3]} ∪ ({[2]} ∪ ∅)) : gset nat)
     ⊆ ∅ ∪ list_to_set (idents Samples.page).
Proof.
  refine (parse_hack_bounds Samples.page ∅
            [("name", VStr "Alice"); ("title", VStr "A widget")]
            ({[4]} ∪ ({[3]} ∪ ({[2]} ∪ ∅))) _).
  vm_compute. reflexivity.
Defined.

(** X12 on [page] and a [hack] that holds identities of other objects. *)
Lemma parse_fresh_witness :
  parse Samples.page ({[100]} ∪ ({[101]} ∪ ∅))
  = frame ({[100]} ∪ ({[101]} ∪ ∅)) (parse Samples.page ∅).
Proof.
  refine (parse_fresh Samples.page ({[100]} ∪ ({[101]} ∪ ∅)) _).
  intros i Hi. simpl in Hi.
  repeat (apply elem_of_cons in Hi as [->|Hi]; [compute_done|]).
  inversion Hi.
Defined.

(** X13. When the article is in [hack], the walker contributes nothing:
    [parse] returns what [parse_sections] builds from the empty record, and
    leaves [hack] as it is. *)
Theorem parse_stale_article soup root article hack :
  Bs4.find (fun t => String.eqb (name (elem t)) "html") (mkRef soup [] [])
    = Some root ->
  Bs4.find (fun t => String.eqb (name (elem t)) "article") root = Some article ->
  ident (elem article) ∈ hack ->
  parse soup hack = lift (parse_sections article []) hack.
Proof.
  intros Hroot Hart Hin. unfold parse. rewrite Hroot, Hart.
  unfold bind. by rewrite parse_tag_visited.
Qed.

(** X13 on [patent] with the identity of its article in [hack]: the groups
    are gone, the abstract remains. *)
Lemma parse_stale_article_witness :
  parse Samples.patent ({[3]} ∪ ∅)
  = Done ([("abstract",
            VDict [("lang", VStr "EN");
                   ("class", VList [VStr "abstract"]);
                   ("content", VStr "A widget.")])], {[3]} ∪ ∅).
Proof.
  eapply eq_trans.
  - eapply parse_stale_article.
    + reflexivity.
    + reflexivity.
    + compute_done.
  - vm_compute. reflexivity.
Defined.

(** ** Two groups with the same label *)

Lemma set_set_eq {V : Type} (k : string) (v1 v2 : V) (d : list (string * V)) :
  PyDict.set k v2 (PyDict.set k v1 d) = PyDict.set k v2 d.
Proof.
  induction d as [|[k' v'] d IHd]; simpl.
  - by rewrite String.eqb_refl.
  - destruct (String.eqb k' k) eqn:E; simpl; rewrite E; [done|by rewrite IHd].
Qed.

(** X14. When two group headers that follow each other among the children of
    one element have the same label, the record of the second group replaces
    the record of the first: after both, the record is the one that storing
    the second group alone gives, and what the siblings of the first header
    held is lost. *)
Theorem header_collision ps h1 sibs h2 sibs2 tail
        current_node hack child1 hack1 child2 hack2 :
  is_start h1 = true ->
  is_start h2 = true ->
  parse_label h1 = parse_label h2 ->
  Forall (fun e => is_start_pe e = false) sibs ->
  Forall (fun e => is_start_pe e = false) sibs2 ->
  group_end tail ->
  ident h1 ∉ hack ->
  walk_children parse_tag (Bs4.refs ps sibs) [] ({[ident h1]} ∪ hack)
    = Done (child1, hack1) ->
  ident h2 ∉ hack1 ->
  walk_children parse_tag (Bs4.refs ps sibs2) [] ({[ident h2]} ∪ hack1)
    = Done (child2, hack2) ->
  walk_children parse_tag
    (Bs4.refs ps (Element h1 :: sibs ++ Element h2 :: sibs2 ++ tail))
    current_node hack
  = walk_children parse_tag (Bs4.refs ps tail)
      (PyDict.set (parse_label h2) (VDict child2) current_node) hack2.
Proof.
  intros Hh1 Hh2 Hlabel Hs1 Hs2 Hend Hf1 Hw1 Hf2 Hw2.
  rewrite (walk_two_groups ps h1 sibs h2 sibs2 tail current_node hack
             child1 hack1 child2 hack2) by done.
  by rewrite Hlabel, set_set_eq.
Qed.

(** X14 on two headers that both give the label [inventor]. *)
Lemma header_collision_witness :
  walk_children parse_tag (Bs4.refs [] Samples.collision) [] ∅
  = Done ([("inventor", VDict [("title", VStr "A widget")])],
          {[8]} ∪ ({[79]} ∪ ({[5]} ∪ ({[4]} ∪ ∅)))).
Proof.
  refine (header_collision [] Samples.inventor [Element Samples.alice]
            Samples.inventor_again [Element Samples.title] [] [] ∅
            [("name", VList [VStr "Alice"])] ({[5]} ∪ ({[4]} ∪ ∅))
            [("title", VStr "A widget")]
            ({[8]} ∪ ({[79]} ∪ ({[5]} ∪ ({[4]} ∪ ∅))))
            _ _ _ _ _ _ _ _ _ _).
  - reflexivity.
  - reflexivity.
  - reflexivity.
  - repeat constructor.
  - repeat constructor.
  - exact I.
  - compute_done.
  - vm_compute. reflexivity.
  - compute_done.
  - vm_compute. reflexivity.
Defined.

(** ** The dispatch of the sections *)

(** What one section does to the record does not depend on the record: it
    binds its property name to a value, or fails. *)
Lemma parse_section_shape s p :
  Bs4.get "itemprop" (elem s) = Some (AStr p) ->
  (exists v, forall c, parse_section s c = Ok (PyDict.set p v c))
  \/ (exists e, forall c, parse_section s c = Err e).
Proof.
  intros Hp. unfold parse_section. rewrite Hp.
  match goal with
  | |- context [rbind ?x _] => destruct x as [v|e] eqn:E
  end.
  - left. exists v. intros c. simpl. reflexivity.
  - right. exists e. intros c. reflexivity.
Qed.

Lemma parse_section_other s c c' k :
  parse_section s c = Ok c' ->
  Bs4.get "itemprop" (elem s) <> Some (AStr k) ->
  PyDict.get k c' = PyDict.get k c.
Proof.
  intros H Hk. destruct (Bs4.get "itemprop" (elem s)) as [[p|l]|] eqn:Hp.
  - destruct (parse_section_shape s p Hp) as [[v Hv]|[e He]].
    + rewrite Hv in H. injection H as <-. apply get_set_ne. congruence.
    + by rewrite He in H.
  - unfold parse_section in H. by rewrite Hp in H.
  - unfold parse_section in H. by rewrite Hp in H.
Qed.

Lemma each_section_app l1 l2 c :
  each_section (l1 ++ l2) c = rbind (each_section l1 c) (each_section l2).
Proof.
  revert c. induction l1 as [|s l1 IHl]; intros c; simpl; [done|].
  destruct (parse_section s c); simpl; [apply IHl|done].
Qed.

Lemma each_section_other l k : forall c c',
  each_section l c = Ok c' ->
  (forall s, s ∈ l -> Bs4.get "itemprop" (elem s) <> Some (AStr k)) ->
  PyDict.get k c' = PyDict.get k c.
Proof.
  induction l as [|s l IHl]; intros c c' H Hl; simpl in H.
  - by injection H as <-.
  - destruct (parse_section s c) as [c1|] eqn:E; [|done]. simpl in H.
    rewrite (IHl c1 c' H) by (intros s' Hs'; apply Hl; by right).
    apply (parse_section_other s c c1 k E). apply Hl. by left.
Qed.

(** X15. [parse_sections] changes the keys that are property names of
    sections only: every other key holds after it what the walker had put
    there. *)
Theorem sections_keep_other_keys article current_node data k :
  parse_sections article current_node = Ok data ->
  (forall s, s ∈ sections_of article ->
     Bs4.get "itemprop" (elem s) <> Some (AStr k)) ->
  PyDict.get k data = PyDict.get k current_node.
Proof. intros H Hk. by apply (each_section_other (sections_of article) k). Qed.

(** X16. The value of a section is under its property name in the end, in
    place of whatever the walker or an earlier section had put there,
    provided no later section has the same property name. *)
Theorem section_value_stays article pre s post p current_node data c0 c1 :
  sections_of article = pre ++ s :: post ->
  Bs4.get "itemprop" (elem s) = Some (AStr p) ->
  (forall s', s' ∈ post -> Bs4.get "itemprop" (elem s') <> Some (AStr p)) ->
  parse_sections article current_node = Ok data ->
  parse_section s c0 = Ok c1 ->
  PyDict.get p data = PyDict.get p c1.
Proof.
  intros Hsec Hp Hpost Hdata Hs.
  unfold parse_sections in Hdata. fold (sections_of article) in Hdata.
  rewrite Hsec, each_section_app in Hdata.
  destruct (each_section pre current_node) as [cpre|]; [|done].
  simpl in Hdata.
  destruct (parse_section_shape s p Hp) as [[v Hv]|[e He]].
  - rewrite Hv in Hdata, Hs. simpl in Hdata. injection Hs as <-.
    rewrite (each_section_other post p _ _ Hdata Hpost).
    by rewrite !get_set_eq.
  - by rewrite He in Hs.
Qed.

(** X17. A section whose property name is a string other than [abstract],
    [description] and [claims] never fails: whatever it holds, its property
    name is bound to [None]. *)
Theorem unknown_section_none s p c :
  Bs4.get "itemprop" (elem s) = Some (AStr p) ->
  known_section p = false ->
  parse_section s c = Ok (PyDict.set p VNone c).
Proof.
  intros Hp Hk. unfold parse_section. rewrite Hp.
  unfold known_section in Hk.
  apply orb_false_elim in Hk as [Hk Hc].
  apply orb_false_elim in Hk as [Ha Hd].
  by rewrite Ha, Hd, Hc.
Qed.

(** The sub-parsers fail with [AssertionError] only. *)
Lemma assert_found_error {A : Type} (x : option A) e :
  assert_found x = Err e -> e = AssertionError.
Proof. destruct x; simpl; congruence. Qed.

Lemma claims_of_error l : forall seen e,
  claims_of l seen = Err e -> e = AssertionError.
Proof.
  induction l as [|t l IHl]; intros seen e; simpl; [done|].
  destruct (Bs4.find_parent _ t) as [claim|]; simpl; [|congruence].
  destruct (bool_decide _); [apply IHl|].
  destruct (claims_of l _) as [more|e'] eqn:E; simpl; [done|].
  intros [= <-]. by apply (IHl _ _ E).
Qed.

Lemma sub_parser_errors section e :
  (parse_abstract section = Err e -> e = AssertionError)
  /\ (parse_description section = Err e -> e = AssertionError)
  /\ (parse_claims section = Err e -> e = AssertionError).
Proof.
  unfold parse_abstract, parse_description, parse_claims, find_claims.
  repeat split.
  - destruct (Bs4.find _ section); simpl; congruence.
  - destruct (Bs4.find _ section); simpl; congruence.
  - destruct (Bs4.find _ section) as [claims_tag|]; simpl; [|congruence].
    destruct (claims_of _ ∅) as [claims|e'] eqn:E; simpl; [done|].
    intros [= <-]. by apply (claims_of_error _ _ _ E).
Qed.

(** X18. A section makes [parse_sections] fail in three cases only: it has no
    property name, and the exception is [KeyError]; its property name is a
    list, or it is one of [abstract], [description] and [claims] and the
    element this parser looks for is missing, and the exception is
    [AssertionError]. *)
Theorem parse_section_failure s c e :
  parse_section s c = Err e ->
  (e = KeyError /\ Bs4.get "itemprop" (elem s) = None)
  \/ (e = AssertionError
      /\ ((exists l, Bs4.get "itemprop" (elem s) = Some (AList l))
          \/ (exists p, Bs4.get "itemprop" (elem s) = Some (AStr p)
                        /\ known_section p = true))).
Proof.
  unfold parse_section.
  destruct (Bs4.get "itemprop" (elem s)) as [[p|l]|].
  - intros H. right.
    destruct (known_section p) eqn:Hk.
    + split; [|right; by exists p].
      destruct (sub_parser_errors s e) as (Ha & Hd & Hc).
      unfold known_section in Hk.
      destruct (String.eqb p "abstract").
      { destruct (parse_abstract s); simpl in H; [done|]. apply Ha. congruence. }
      destruct (String.eqb p "description").
      { destruct (parse_description s); simpl in H; [done|]. apply Hd. congruence. }
      destruct (String.eqb p "claims"); [|done].
      destruct (parse_claims s); simpl in H; [done|]. apply Hc. congruence.
    + unfold known_section in Hk.
      apply orb_false_elim in Hk as [Hk Hc].
      apply orb_false_elim in Hk as [Ha Hd].
      by rewrite Ha, Hd, Hc in H.
  - intros [= <-]. right. split; [done|]. left. by exists l.
  - intros [= <-]. by left.
Qed.

(** X15 on an article with three sections and a record that holds [date]. *)
Lemma sections_keep_other_keys_witness :
  PyDict.get "date"
    ([("date", VStr "2001");
      ("abstract", VDict [("content", VStr "Second.")]);
      ("family", VNone)] : Node)
  = PyDict.get "date" ([("date", VStr "2001")] : Node).
Proof.
  refine (sections_keep_other_keys (mkRef Samples.sections_article [] [])
            [("date", VStr "2001")] _ "date" _ _).
  - vm_compute. reflexivity.
  - intros s Hs. vm_compute in Hs.
    repeat (apply elem_of_cons in Hs as [->|Hs]; [discriminate|]).
    inversion Hs.
Defined.

(** X16 on the same article: the second abstract takes the place of the
    first. *)
Lemma section_value_stays_witness :
  PyDict.get "abstract"
    ([("abstract", VDict [("content", VStr "Second.")]); ("family", VNone)] : Node)
  = PyDict.get "abstract"
      ([("abstract", VDict [("content", VStr "Second.")])] : Node).
Proof.
  refine (section_value_stays (mkRef Samples.sections_article [] [])
            [mkRef Samples.abstract_section
               [Element Samples.other_section; Element Samples.second_abstract]
               [Samples.sections_article];
             mkRef Samples.other_section [Element Samples.second_abstract]
               [Samples.sections_article]]
            (mkRef Samples.second_abstract [] [Samples.sections_article])
            [] "abstract" [] _ [] _ _ _ _ _ _).
  - reflexivity.
  - reflexivity.
  - intros s' Hs'. inversion Hs'.
  - vm_compute. reflexivity.
  - vm_compute. reflexivity.
Defined.

(** X17 on a section named [family]. *)
Lemma unknown_section_none_witness :
  parse_section (mkRef Samples.other_section [] []) [("date", VStr "2001")]
  = Ok [("date", VStr "2001"); ("family", VNone)].
Proof.
  refine (unknown_section_none (mkRef Samples.other_section [] []) "family"
            [("date", VStr "2001")] _ _).
  - reflexivity.
  - reflexivity.
Defined.

(** X18 on a section without property name. *)
Lemma parse_section_failure_witness :
  (KeyError = KeyError /\ Bs4.get "itemprop" Samples.nameless_section = None)
  \/ (KeyError = AssertionError
      /\ ((exists l, Bs4.get "itemprop" Samples.nameless_section = Some (AList l))
          \/ (exists p, Bs4.get "itemprop" Samples.nameless_section = Some (AStr p)
                        /\ known_section p = true))).
Proof.
  refine (parse_section_failure (mkRef Samples.nameless_section [] []) []
            KeyError _).
  reflexivity.
Defined.

(** ** The records of the sections *)

(** X19. The field [content] of an abstract is the text of its element, also
    when the element has an attribute named [content]: the text is yielded
    last and takes its place. *)
Theorem abstract_content_is_text section abstract :
  Bs4.find (fun t => String.eqb (name (elem t)) "abstract") section = Some abstract ->
  exists fields,
    parse_abstract section = Ok fields
    /\ PyDict.get "content" (PyDict.of_fields fields)
       = Some (VStr (Bs4.get_text (elem abstract))).
Proof.
  intros Hfind. eexists. split; [by apply parse_abstract_fields|].
  apply get_of_fields_last.
Qed.

(** X19 on an abstract with an attribute [content]. *)
Lemma abstract_content_is_text_witness :
  exists fields,
    parse_abstract (mkRef Samples.second_abstract [] []) = Ok fields
    /\ PyDict.get "content" (PyDict.of_fields fields) = Some (VStr "Second.").
Proof.
  refine (abstract_content_is_text (mkRef Samples.second_abstract [] [])
            (mkRef Samples.abstract_with_content [] [Samples.second_abstract])
            _).
  reflexivity.
Defined.

Section FieldsKeys.
Context {V : Type}.
Implicit Types (d l : list (string * V)) (k : string).

(** A key that is neither in the dictionary nor among the fields is not in
    the dictionary the fields are added to. *)
Lemma get_fold_none l : forall d k,
  PyDict.get k d = None ->
  Forall (fun kv => fst kv <> k) l ->
  PyDict.get k (fold_left (fun d kv => PyDict.set (fst kv) (snd kv) d) l d) = None.
Proof.
  induction l as [|[k0 v0] l IHl]; intros d k Hd Hl; simpl; [done|].
  apply Forall_cons in Hl as [Hk Hl]. simpl in Hk.
  apply IHl; [|done]. by rewrite get_set_ne.
Qed.

Lemma mem_of_fields_none l k :
  Forall (fun kv => fst kv <> k) l -> PyDict.mem k (PyDict.of_fields l) = false.
Proof.
  intros Hl. unfold PyDict.mem, PyDict.of_fields. by rewrite get_fold_none.
Qed.
End FieldsKeys.

Lemma attrs_except_class_keys tag :
  Forall (fun kv : Field => fst kv <> "class") (attrs_except_class tag).
Proof.
  unfold attrs_except_class. induction (attrs tag) as [|[k a] l IHl]; simpl.
  - constructor.
  - destruct (String.eqb_spec k "class"); simpl; [done|].
    constructor; done.
Qed.

(** X20. The record of a description, the record of a claims block and the
    entry of a claim never hold the key [class], whatever the attributes of
    their elements are. *)
Theorem no_class_key section claim :
  match parse_description section with
  | Ok fields => PyDict.mem "class" (PyDict.of_fields fields) = false
  | Err _ => True
  end
  /\ match parse_claims section with
     | Ok fields => PyDict.mem "class" (PyDict.of_fields fields) = false
     | Err _ => True
     end
  /\ PyDict.mem "class" (PyDict.of_fields (parse_claim claim)) = false.
Proof.
  split; [|split].
  - unfold parse_description. destruct (Bs4.find _ section); simpl; [|done].
    apply mem_of_fields_none, Forall_app. split.
    + apply attrs_except_class_keys.
    + by repeat constructor.
  - unfold parse_claims. destruct (Bs4.find _ section); simpl; [|done].
    destruct (find_claims _); simpl; [|done].
    apply mem_of_fields_none, Forall_app. split.
    + apply attrs_except_class_keys.
    + by repeat constructor.
  - apply mem_of_fields_none, Forall_app. split.
    + apply attrs_except_class_keys.
    + by repeat constructor.
Qed.



(** A leaf without claim above it stops the loop of [find_claims]. *)
Lemma claims_of_orphan l : forall seen t,
  t ∈ l -> nearest_claim t = None ->
  claims_of l seen = Err AssertionError.
Proof.
  induction l as [|t0 l IHl]; intros seen t Hin Hnone; [inversion Hin|].
  simpl. apply elem_of_cons in Hin as [<-|Hin].
  - unfold nearest_claim in Hnone. by rewrite Hnone.
  - destruct (Bs4.find_parent _ t0) as [claim|]; simpl; [|done].
    destruct (bool_decide _); [by apply (IHl _ t)|].
    by rewrite (IHl _ t).
Qed.

(** X22. When a leaf with the class [claim-text] has no parent with the class
    [claim], [find_claims] raises [AssertionError], and so does [parse_claims]
    on the section: no list of claims is returned, not even the claims found
    before the leaf. *)
Theorem find_claims_orphan section claims_tag t :
  Bs4.find (fun t => has_class (elem t) "claims") section = Some claims_tag ->
  t ∈ claim_texts claims_tag ->
  nearest_claim t = None ->
  find_claims claims_tag = Err AssertionError
  /\ parse_claims section = Err AssertionError.
Proof.
  intros Hfind Hin Hnone.
  assert (find_claims claims_tag = Err AssertionError) as E.
  { unfold find_claims. by apply (claims_of_orphan _ _ t). }
  split; [done|]. unfold parse_claims. rewrite Hfind. simpl. by rewrite E.
Qed.

(** X22 on a claims block with a claim and a stray leaf after it. *)
Lemma find_claims_orphan_witness :
  find_claims (mkRef Samples.orphan_claims [] [Samples.orphan_section])
    = Err AssertionError
  /\ parse_claims (mkRef Samples.orphan_section [] []) = Err AssertionError.
Proof.
  refine (find_claims_orphan (mkRef Samples.orphan_section [] [])
            (mkRef Samples.orphan_claims [] [Samples.orphan_section])
            (mkRef (mkTag 87 "div" [("class", AList ["claim-text"])]
                      [NavigableString "stray"])
                   [] [Samples.orphan_claims; Samples.orphan_section])
            _ _ _).
  - reflexivity.
  - vm_compute. repeat constructor.
  - reflexivity.
Defined.

(** ** The address of a patent *)

(** X23. [main] fetches an argument with a slash as it is, and any other
    argument as a patent of [patents.google.com]; the address it fetches
    always has a slash, so that forming the address of an address changes
    nothing. *)
Theorem url_of_idempotent id_or_url :
  PyStr.contains "/" (url_of id_or_url) = true
  /\ url_of (url_of id_or_url) = url_of id_or_url.
Proof.
  assert (PyStr.contains "/" (url_of id_or_url) = true) as H.
  { unfold url_of. destruct (PyStr.contains "/" id_or_url) eqn:E; [done|].
    reflexivity. }
  split; [done|]. unfold url_of at 1. by rewrite H.
Qed.

(** ** The attributes that go to a record *)

Section FieldsOrder.
Context {V : Type}.
Implicit Types (d l : list (string * V)) (k : string).

Lemma set_absent k (v : V) d :
  PyDict.get k d = None -> PyDict.set k v d = d ++ [(k, v)].
Proof.
  induction d as [|[k' v'] d IHd]; simpl; [done|].
  destruct (String.eqb k' k); [done|]. intros H. by rewrite IHd.
Qed.

Lemma get_app_absent k k' (v : V) d :
  k' <> k -> PyDict.get k d = None -> PyDict.get k (d ++ [(k', v)]) = None.
Proof.
  intros Hne. induction d as [|[k0 v0] d IHd]; simpl.
  - by apply String.eqb_neq in Hne as ->.
  - destruct (String.eqb k0 k); [done|]. apply IHd.
Qed.

Lemma fold_set_unique l : forall d,
  NoDup (map fst l) ->
  Forall (fun kv => PyDict.get (fst kv) d = None) l ->
  fold_left (fun d kv => PyDict.set (fst kv) (snd kv) d) l d = d ++ l.
Proof.
  induction l as [|[k v] l IHl]; intros d Hnd Hd; simpl.
  - by rewrite app_nil_r.
  - apply NoDup_cons in Hnd as [Hk Hnd].
    apply Forall_cons in Hd as [Hkd Hd]. simpl in Hkd.
    rewrite set_absent by done. rewrite IHl; [by rewrite <- app_assoc|done|].
    apply Forall_forall. intros [k' v'] Hin. simpl.
    apply get_app_absent.
    + intros ->. apply Hk. apply list_elem_of_In, in_map_iff.
      exists (k', v'). split; [done|]. by apply list_elem_of_In.
    + by apply (proj1 (Forall_forall _ _) Hd (k', v')).
Qed.

Lemma of_fields_snoc l (kv : string * V) :
  PyDict.of_fields (l ++ [kv]) = PyDict.set (fst kv) (snd kv) (PyDict.of_fields l).
Proof. unfold PyDict.of_fields. by rewrite fold_left_app. Qed.

(** [dict] of fields with distinct keys holds the fields in their order. *)
Lemma of_fields_unique l : NoDup (map fst l) -> PyDict.of_fields l = l.
Proof.
  intros Hnd. unfold PyDict.of_fields. rewrite fold_set_unique; try done.
  apply Forall_forall. done.
Qed.
End FieldsOrder.

Lemma attrs_except_class_get tag k :
  k <> "class" ->
  PyDict.get k (attrs_except_class tag) = of_attr <$> PyDict.get k (attrs tag).
Proof.
  intros Hk. unfold attrs_except_class.
  induction (attrs tag) as [|[k0 a0] l IHl]; [done|].
  cbn [List.filter PyDict.get fst snd].
  destruct (String.eqb_spec k0 "class") as [->|Hne]; cbn [negb].
  - destruct (String.eqb_spec "class" k) as [E|E]; [by destruct Hk|apply IHl].
  - cbn [map PyDict.get fst snd].
    destruct (String.eqb k0 k); [done|apply IHl].
Qed.

Lemma attrs_except_class_unique tag :
  NoDup (map fst (attrs tag)) -> NoDup (map fst (attrs_except_class tag)).
Proof.
  unfold attrs_except_class.
  induction (attrs tag) as [|[k0 a0] l IHl]; simpl; [done|].
  intros Hnd. apply NoDup_cons in Hnd as [Hk Hnd].
  destruct (String.eqb k0 "class"); simpl; [auto|].
  apply NoDup_cons. split; [|auto].
  intros Hin. apply Hk.
  apply list_elem_of_In, in_map_iff in Hin as ([k1 v1] & Hk1 & Hin).
  apply in_map_iff in Hin as ([k2 a2] & Heq & Hin).
  apply filter_In in Hin as [Hin _].
  simpl in *. injection Heq as <- <-. subst.
  apply list_elem_of_In, in_map_iff. by exists (k0, a2).
Qed.

(** X24. The fields [attrs_except_class] yields keep every attribute other
    than [class] with its value: in the record made of them and of one more
    field ([text] for a claim, [parts] for a description, [claims] for a
    claims block), an attribute whose name is not the name of this field is
    bound to its value. *)
Theorem attributes_kept tag k a last value :
  NoDup (map fst (attrs tag)) ->
  Bs4.get k tag = Some a ->
  k <> "class" ->
  k <> last ->
  PyDict.get k (PyDict.of_fields (attrs_except_class tag ++ [(last, value)]))
  = Some (of_attr a).
Proof.
  intros Hnd Hget Hclass Hlast.
  unfold Field.
  rewrite (of_fields_snoc (attrs_except_class tag) (last, value)). cbn [fst snd].
  rewrite get_set_ne by done.
  rewrite (of_fields_unique (attrs_except_class tag))
    by by apply attrs_except_class_unique.
  rewrite attrs_except_class_get by done.
  unfold Bs4.get in Hget. by rewrite Hget.
Qed.

(** X24 on the first claim of the samples: its [num] is in its entry. *)
Lemma attributes_kept_witness :
  PyDict.get "num" (PyDict.of_fields (parse_claim Samples.claim1))
  = Some (VStr "00001").
Proof.
  refine (attributes_kept Samples.claim1 "num" (AStr "00001") "text"
            (VStr (Bs4.get_text Samples.claim1)) _ _ _ _).
  - repeat constructor; compute_done.
  - reflexivity.
  - discriminate.
  - discriminate.
Defined.

(** ** A group without siblings *)

(** X25. A group header that is followed by another header at once, or by
    nothing, gets the empty record; its own children are not walked, whatever
    they carry, and stay out of [hack]. *)
Theorem header_alone h rest ps c hack :
  is_start h = true ->
  ident h ∉ hack ->
  group_end rest ->
  parse_tag (mkRef h rest ps) c hack
  = Done (PyDict.set (parse_label h) (VDict []) c, {[ident h]} ∪ hack).
Proof.
  intros Hh Hf Hend. rewrite parse_tag_fresh by done. cbn [elem].
  rewrite Hh. unfold bind, parse_siblings, Bs4.next_sibling_refs.
  cbn [parents next_siblings].
  by rewrite (walk_siblings_run ps ps [] rest).
Qed.

(** X25 on a header with an annotated child, followed by a header. *)
Lemma header_alone_witness :
  parse_tag (mkRef Samples.lonely [Element Samples.events] []) [] ∅
  = Done ([("ipc", VDict [])], {[89]} ∪ ∅).
Proof.
  refine (header_alone Samples.lonely [Element Samples.events] [] [] ∅ _ _ _).
  - reflexivity.
  - compute_done.
  - reflexivity.
Defined.

(** ** When [parse] raises [KeyError] *)

Lemma tame_raised {A B : Type} e : tame (@Raised A e) -> tame (@Raised B e).
Proof. intros H e0 [= <-]. by apply H. Qed.

Section Raises.
Variable F : TagRef -> Node -> M Node.
Hypothesis F_tame : forall r c h, tame (F r c h).

Lemma walk_children_tame l : forall c h, tame (walk_children F l c h).
Proof.
  induction l as [|[s|r] l IHl]; intros c h; simpl.
  - intros e. discriminate.
  - apply IHl.
  - unfold bind. pose proof (F_tame r c h) as Hr.
    destruct (F r c h) as [[c' h']|e'|]; [apply IHl|done|].
    intros e. discriminate.
Qed.

Lemma walk_siblings_tame l : forall c h, tame (walk_siblings F l c h).
Proof.
  induction l as [|[s|r] l IHl]; intros c h; simpl.
  - intros e. discriminate.
  - apply IHl.
  - destruct (is_start (elem r)); [intros e; discriminate|].
    unfold bind. pose proof (F_tame r c h) as Hr.
    destruct (F r c h) as [[c' h']|e'|]; [apply IHl|done|].
    intros e. discriminate.
Qed.

Lemma parse_tag_body_tame tag c h : tame (parse_tag_body F tag c h).
Proof.
  unfold parse_tag_body, bind, visited, mark.
  destruct (bool_decide _); [intros e; discriminate|].
  set (h1 := {[ident (elem tag)]} ∪ h).
  destruct (is_start (elem tag)).
  { unfold parse_siblings.
    pose proof (walk_siblings_tame (Bs4.next_sibling_refs tag) [] h1) as Hs.
    destruct (walk_siblings _ _ _ _) as [[c' h']|e'|]; [|exact (tame_raised e' Hs)|];
      intros e; discriminate. }
  destruct (negb _); [apply walk_children_tame|].
  destruct (Bs4.get "itemprop" (elem tag)) as [[p|l]|].
  - destruct (String.eqb _ _); [intros e; discriminate|].
    assert (tame (property_value F p tag h1)) as Hp.
    { unfold property_value, parse_children, bind.
      destruct (Bs4.has_attr "itemscope" (elem tag)).
      - pose proof (walk_children_tame (Bs4.children tag) [] h1) as Hc.
        destruct (walk_children _ _ _ _) as [[c' h']|e'|]; [|exact (tame_raised e' Hc)|];
          intros e; discriminate.
      - unfold ret. repeat case_match; intros e; discriminate. }
    destruct (property_value F p tag h1) as [[v h2]|e'|]; [|exact (tame_raised e' Hp)|].
    + destruct (Bs4.has_attr "repeat" _); [|intros e; discriminate].
      unfold append_value, ret, raise.
      repeat case_match; intros e; try discriminate; intros [= <-]; by right.
    + intros e. discriminate.
  - intros e [= <-]. by left.
  - intros e [= <-]. by left.
Qed.
End Raises.

Lemma parse_tag_fuel_tame f : forall tag c h, tame (parse_tag_fuel f tag c h).
Proof.
  induction f as [|f IHf]; intros tag c h; [intros e; discriminate|].
  simpl. by apply parse_tag_body_tame.
Qed.

Lemma each_section_key_error l : forall c,
  each_section l c = Err KeyError ->
  exists s, s ∈ l /\ Bs4.get "itemprop" (elem s) = None.
Proof.
  induction l as [|s l IHl]; intros c; simpl; [done|].
  destruct (parse_section s c) as [c1|e] eqn:E; simpl.
  - intros H. destruct (IHl c1 H) as (s' & Hin & Hs'). exists s'. split; [by right|done].
  - intros [= ->]. exists s. split; [by left|].
    unfold parse_section in E.
    destruct (Bs4.get "itemprop" (elem s)) as [[p|l0]|]; [|done|done].
    destruct (sub_parser_errors s KeyError) as (Ha & Hd & Hc).
    destruct (String.eqb p "abstract").
    { destruct (parse_abstract s); simpl in E; [done|].
      assert (KeyError = AssertionError) by (apply Ha; congruence). done. }
    destruct (String.eqb p "description").
    { destruct (parse_description s); simpl in E; [done|].
      assert (KeyError = AssertionError) by (apply Hd; congruence). done. }
    destruct (String.eqb p "claims"); [|done].
    destruct (parse_claims s); simpl in E; [done|].
    assert (KeyError = AssertionError) by (apply Hc; congruence). done.
Qed.

(** X26. [parse] raises [KeyError] only when a section of the article has no
    property name: the walker never looks up a key that may be missing, and
    the parsers of the sections fail by their assertions only. *)
Theorem parse_key_error soup hack :
  parse soup hack = Raised KeyError ->
  exists root article s,
    Bs4.find (fun t => String.eqb (name (elem t)) "html") (mkRef soup [] [])
      = Some root
    /\ Bs4.find (fun t => String.eqb (name (elem t)) "article") root
       = Some article
    /\ s ∈ sections_of article
    /\ Bs4.get "itemprop" (elem s) = None.
Proof.
  unfold parse.
  destruct (Bs4.find _ (mkRef soup [] [])) as [root|] eqn:Hroot; [|done].
  destruct (Bs4.find _ root) as [article|] eqn:Hart; [|done].
  unfold bind.
  pose proof (parse_tag_fuel_tame (S (weight article)) article [] hack) as Ht.
  fold (parse_tag article [] hack) in Ht.
  destruct (parse_tag article [] hack) as [[c h1]|e'|]; [| |done].
  - unfold lift, parse_sections. fold (sections_of article).
    destruct (each_section (sections_of article) c) as [data|e'] eqn:E; [done|].
    intros [= ->].
    destruct (each_section_key_error _ _ E) as (s & Hin & Hs).
    by exists root, article, s.
  - intros [= ->]. by destruct (Ht KeyError eq_refl).
Qed.

(** X26 on a document whose section has no property name. *)
Lemma parse_key_error_witness :
  exists root article s,
    Bs4.find (fun t => String.eqb (name (elem t)) "html")
             (mkRef Samples.nameless_page [] []) = Some root
    /\ Bs4.find (fun t => String.eqb (name (elem t)) "article") root
       = Some article
    /\ s ∈ sections_of article
    /\ Bs4.get "itemprop" (elem s) = None.
Proof.
  refine (parse_key_error Samples.nameless_page ∅ _).
  vm_compute. reflexivity.
Defined.
